(** * ComfyUI-CairoSVG: the vectorization upscale pipeline and its process wrapper

    A shallow embedding of [svgutils.upscale_with_vectorization] and of
    [install.process_wrap] / [install.handle_stream], with the properties the
    specification states about them.

    The pipeline talks to the outside world all the time (the file system,
    Pillow, the potrace child process, CairoSVG).  The world is an explicit
    state ([World]); what the outside answers is read from an environment
    ([Env]); Python exceptions are an explicit outcome ([Raise]). *)

From Stdlib Require Import ZArith String List PrimFloat.
From Stdlib.Strings Require Import Byte.
From stdpp Require Import base option list gmap strings.

Local Open Scope string_scope.
Local Open Scope list_scope.

(** ** Python exceptions *)

(** The exception classes the pipeline raises or lets through.  All of them
    derive from [Exception]; [OSError] is the class [os.remove], [open] and
    the [tempfile] functions raise.  [raise ... from e] also records [e] as
    the cause; only the message is kept here (it already embeds [str(e)]). *)
Inductive exn :=
| RuntimeError (msg : string)
| OSError (msg : string)
| ValueError (msg : string).

(** [str(e)] *)
Definition str (e : exn) : string :=
  match e with
  | RuntimeError m => m
  | OSError m => m
  | ValueError m => m
  end.

(** [isinstance(e, OSError)] *)
Definition is_OSError (e : exn) : bool :=
  match e with
  | OSError _ => true
  | _ => false
  end.

Inductive outcome (A : Type) :=
| Return (a : A)
| Raise (e : exn).
Arguments Return {A} a.
Arguments Raise {A} e.

(** ** Data *)

Definition bytes := list byte.

(** A Pillow image object: [mode] is the mode string ("RGB", "RGBA", "LA",
    ...), [size] is (width, height), [pixels] is the raw buffer, one entry
    per band and pixel, row after row; [loaded] tells whether the pixel data
    has been read in ([Image.open] is lazy). *)
Record PILImage := {
  mode : string;
  size : Z * Z;
  pixels : list Z;
  loaded : bool
}.

(** [subprocess.CompletedProcess] with [capture_output=True, text=True] *)
Record CompletedProcess := {
  returncode : Z;
  stdout : string;
  stderr : string
}.

(** What a child process did: its exit status and the bytes it wrote to its
    standard output and to its standard error. *)
Record ChildOutput := {
  exit_status : Z;
  out_bytes : bytes;
  err_bytes : bytes
}.

(** Decoding bytes in the locale's encoding, errors strict: the text, or
    the message of the [UnicodeDecodeError]. *)
Inductive decoded :=
| Text (s : string)
| Undecodable (msg : string).

(** References to image objects. *)
Definition loc := nat.

(** What the pipeline did to the outside, in the order it did it. *)
Inductive Event :=
| EWhich (name : string) (found : option string)
| EBmpSave (img : PILImage) (res : outcome bytes)
| ETempCreate (suffix : string) (res : outcome string)
| EWrite (path : string) (data : bytes) (err : option exn)
| EChild (command : list string) (child : ChildOutput)
| ERun (command : list string) (res : outcome CompletedProcess)
| EReadFile (path : string) (res : outcome bytes)
| ESvg2Png (bytestring : bytes) (scale : float)
           (output_width output_height : option Z) (res : outcome bytes)
| EImageOpen (png : bytes) (res : outcome loc)
| ERemove (path : string) (err : option string).

Record World := {
  fs : gmap string bytes;
  heap : gmap loc PILImage;
  trace : list Event
}.

Definition initial_world (files : gmap string bytes) (images : gmap loc PILImage) : World :=
  {| fs := files; heap := images; trace := [] |}.

(** ** The environment: what the outside world answers *)

Record Env := {
  (** [shutil.which] *)
  which : string → option string;
  (** reading in the pixel data of a lazily opened image may fail *)
  decode_error : PILImage → option exn;
  (** byte layout the BMP encoder produces for a mode it supports *)
  bmp_serialise : PILImage → bytes;
  (** [tempfile.gettempdir()] *)
  gettempdir : string;
  (** [tempfile.NamedTemporaryFile] / [tempfile.mkstemp], by suffix: the
      random part of the name of the file created, or the error *)
  tmp_name : string → outcome string;
  (** writing (and flushing on close) the temporary file may fail *)
  write_error : string → option exn;
  (** starting the child and letting it run to its end, as
      [subprocess.run] does: the child may change the file system *)
  subprocess_run : list string → gmap string bytes →
                   outcome (ChildOutput * gmap string bytes);
  (** the decoding [text=True] asks for *)
  decode_text : bytes → decoded;
  (** [open(path, "rb").read()] of an existing file may still fail *)
  read_error : string → option exn;
  (** [cairosvg.svg2png] *)
  svg2png : bytes → float → option Z → option Z → outcome bytes;
  (** [Image.open]: header parsing *)
  image_open : bytes → outcome PILImage;
  (** Pillow's mode conversions other than the ones written out below *)
  pil_convert : string → string → list Z → outcome (list Z);
  (** [os.remove] may fail, always with an [OSError]: its message *)
  remove_error : string → option string
}.

(** ** The monad of the pipeline: state and exceptions *)

Definition M (A : Type) := World → outcome A * World.

Definition M_ret {A} (a : A) : M A := fun w => (Return a, w).

Definition raise {A} (e : exn) : M A := fun w => (Raise e, w).

Definition M_bind {A B} (k : A → M B) (c : M A) : M B :=
  fun w =>
    match c w with
    | (Return a, w1) => k a w1
    | (Raise e, w1) => (Raise e, w1)
    end.

#[global] Instance M_MRet : MRet M := @M_ret.
#[global] Instance M_MBind : MBind M := @M_bind.

(** [try: c  except Exception as e: h e] *)
Definition try_except {A} (c : M A) (h : exn → M A) : M A :=
  fun w =>
    match c w with
    | (Return a, w1) => (Return a, w1)
    | (Raise e, w1) => h e w1
    end.

(** [try: c  except OSError: pass] *)
Definition pass_OSError (c : M unit) : M unit :=
  fun w =>
    match c w with
    | (Return a, w1) => (Return a, w1)
    | (Raise e, w1) => if is_OSError e then (Return tt, w1) else (Raise e, w1)
    end.

(** [try: body  finally: fin v], where [v] is the value a local variable
    assigned in [body] has when the block is left.  An exception of [fin]
    replaces the outcome of [body]; otherwise the outcome of [body] stands. *)
Definition try_finally {A V} (body : World → outcome A * V * World)
    (fin : V → M unit) : M A :=
  fun w =>
    match body w with
    | (r, v, w1) =>
        match fin v w1 with
        | (Return _, w2) => (r, w2)
        | (Raise e, w2) => (Raise e, w2)
        end
    end.

Definition log (ev : Event) : M unit :=
  fun w => (Return tt, {| fs := fs w; heap := heap w; trace := trace w ++ [ev] |}).

Definition set_fs (f : gmap string bytes) : M unit :=
  fun w => (Return tt, {| fs := f; heap := heap w; trace := trace w |}).

Definition set_heap (h : gmap loc PILImage) : M unit :=
  fun w => (Return tt, {| fs := fs w; heap := h; trace := trace w |}).

Definition get_fs : M (gmap string bytes) := fun w => (Return (fs w), w).

Definition get_heap : M (gmap loc PILImage) := fun w => (Return (heap w), w).


Definition store (l : loc) (img : PILImage) : M unit :=
  h ← get_heap; set_heap (<[l := img]> h).

(** A new object gets a reference no live object has. *)
Definition alloc (img : PILImage) : M loc :=
  h ← get_heap;
  let l := fresh (dom h) in
  set_heap (<[l := img]> h);; mret l.

(** Reading through a reference.  A reference the caller holds always
    denotes an object; the error branch only makes the function total. *)
Definition deref (l : loc) : M PILImage :=
  h ← get_heap;
  match h !! l with
  | Some img => mret img
  | None => raise (ValueError "dangling image reference")
  end.

(** Commands that stay within a preorder on worlds. *)
Definition respects (R : relation World) {A} (c : M A) : Prop :=
  ∀ w, R w (c w).2.

(** ** Pillow's pixel arithmetic (libImaging) *)

Local Open Scope Z_scope.

Definition u8 (z : Z) : Z := z mod 256.
Definition u32 (z : Z) : Z := z mod 2 ^ 32.

Definition PRECISION_BITS : Z := 7.

(** [#define SHIFTFORDIV255(a) ((((a) >> 8) + a) >> 8)] *)
Definition SHIFTFORDIV255 (a : Z) : Z := Z.shiftr (Z.shiftr a 8 + a) 8.

Definition blend_channel (s d coef1 coef2 : Z) : Z :=
  let tmp := u32 (s * coef1 + d * coef2) in
  u8 (Z.shiftr (SHIFTFORDIV255 (u32 (tmp + Z.shiftl 128 PRECISION_BITS)))
        PRECISION_BITS).

(** One pixel of [ImagingAlphaComposite]: [src] over [dst]. *)
Definition composite_pixel (dr dg db da sr sg sb sa : Z) : list Z :=
  if sa =? 0 then [dr; dg; db; da]
  else
    let blend := u32 (da * (255 - sa)) in
    let outa255 := u32 (sa * 255 + blend) in
    let coef1 := u32 (sa * 255 * 255 * Z.shiftl 1 PRECISION_BITS) / outa255 in
    let coef2 := u32 (255 * Z.shiftl 1 PRECISION_BITS - coef1) in
    [blend_channel sr dr coef1 coef2;
     blend_channel sg dg coef1 coef2;
     blend_channel sb db coef1 coef2;
     u8 (SHIFTFORDIV255 (u32 (outa255 + 128)))].

Fixpoint alpha_composite_buffer (dst src : list Z) : list Z :=
  match dst, src with
  | dr :: dg :: db :: da :: dst', sr :: sg :: sb :: sa :: src' =>
      composite_pixel dr dg db da sr sg sb sa ++ alpha_composite_buffer dst' src'
  | _, _ => []
  end.

(** RGBA to RGB: the alpha band is dropped. *)
Fixpoint rgba2rgb (buf : list Z) : list Z :=
  match buf with
  | r :: g :: b :: _ :: buf' => r :: g :: b :: rgba2rgb buf'
  | _ => []
  end.

(** RGB to RGBA: an opaque alpha band is added. *)
Fixpoint rgb2rgba (buf : list Z) : list Z :=
  match buf with
  | r :: g :: b :: buf' => r :: g :: b :: 255 :: rgb2rgba buf'
  | _ => []
  end.

(** The alpha band of an RGBA buffer. *)
Fixpoint alphas (rgba : list Z) : list Z :=
  match rgba with
  | _ :: _ :: _ :: a :: rest => a :: alphas rest
  | _ => []
  end.

Local Close Scope Z_scope.

(** Modes the BMP writer accepts (the keys of [BmpImagePlugin.SAVE]). *)
Definition bmp_modes : list string := ["1"; "L"; "P"; "RGB"; "RGBA"].

(** Truth value of a Python [str] / of an [Optional[str]]. *)
Definition truthy (s : string) : bool := negb (String.eqb s "").

Definition truthy_opt (o : option string) : bool :=
  match o with
  | Some s => truthy s
  | None => false
  end.

(** ** Text mode *)

Definition CR : Ascii.ascii := Ascii.ascii_of_nat 13.
Definition LF : Ascii.ascii := Ascii.ascii_of_nat 10.

(** Universal newlines: [data.replace("\r\n", "\n").replace("\r", "\n")],
    which is what a text-mode stream does to what it reads. *)
Fixpoint translate_newlines (s : string) : string :=
  match s with
  | EmptyString => EmptyString
  | String c rest =>
      if Ascii.eqb c CR then
        match rest with
        | String c' rest' =>
            if Ascii.eqb c' LF then String LF (translate_newlines rest')
            else String LF (translate_newlines rest)
        | EmptyString => String LF EmptyString
        end
      else String c (translate_newlines rest)
  end.


(** [l[i:j] = new], for [i <= j]. *)
Definition slice_assign {A} (l : list A) (i j : nat) (new : list A) : list A :=
  take i l ++ new ++ drop j l.

(** The image once its pixel data has been read in. *)
Definition set_loaded (img : PILImage) : PILImage :=
  {| mode := mode img; size := size img; pixels := pixels img; loaded := true |}.

(** ** The operations the pipeline calls *)

Section Operations.
Variable E : Env.

(** [shutil.which(name)] *)
Definition shutil_which (name : string) : M (option string) :=
  let r := which E name in
  log (EWhich name r);; mret r.

(** [img.load()]: reads the pixel data in if that has not happened yet. *)
Definition Image_load (l : loc) : M unit :=
  img ← deref l;
  if loaded img then mret tt
  else
    match decode_error E img with
    | Some e => raise e
    | None => store l (set_loaded img)
    end.

(** [Image.new(mode, size, color)] *)
Definition Image_new (m : string) (sz : Z * Z) (color : list Z) : M loc :=
  if bool_decide (0 ≤ sz.1 ∧ 0 ≤ sz.2)%Z then
    alloc {| mode := m; size := sz;
             pixels := mjoin (replicate (Z.to_nat (sz.1 * sz.2)) color);
             loaded := true |}
  else raise (ValueError "Width and height must be >= 0").

(** [Image.alpha_composite(im1, im2)]: [im2] over [im1], a new image. *)
Definition Image_alpha_composite (im1 im2 : loc) : M loc :=
  Image_load im1;;
  Image_load im2;;
  a ← deref im1;
  b ← deref im2;
  if negb (String.eqb (mode a) "RGBA") then
    raise (ValueError "image has wrong mode")
  else if negb (String.eqb (mode a) (mode b) && bool_decide (size a = size b)) then
    raise (ValueError "images do not match")
  else
    alloc {| mode := "RGBA"; size := size a;
             pixels := alpha_composite_buffer (pixels a) (pixels b);
             loaded := true |}.

Definition convert_buffer (src dst : string) (buf : list Z) : outcome (list Z) :=
  if String.eqb src dst then Return buf
  else if String.eqb src "RGBA" && String.eqb dst "RGB" then Return (rgba2rgb buf)
  else if String.eqb src "RGB" && String.eqb dst "RGBA" then Return (rgb2rgba buf)
  else pil_convert E src dst buf.

(** [img.convert(mode)]: always a new image. *)
Definition Image_convert (l : loc) (m : string) : M loc :=
  Image_load l;;
  img ← deref l;
  match convert_buffer (mode img) m (pixels img) with
  | Raise e => raise e
  | Return buf =>
      alloc {| mode := m; size := size img; pixels := buf; loaded := true |}
  end.

(** [img.save(io.BytesIO(), format="BMP")], giving the bytes written.  The
    BMP writer refuses a mode it has no layout for, and Pillow refuses to
    write an image without pixels. *)
Definition Image_save_bmp (l : loc) : M bytes :=
  Image_load l;;
  img ← deref l;
  if bool_decide (mode img ∈ bmp_modes) then
    if bool_decide (0 < (size img).1 ∧ 0 < (size img).2)%Z then
      let data := bmp_serialise E img in
      log (EBmpSave img (Return data));; mret data
    else
      let e := ValueError "cannot write empty image" in
      log (EBmpSave img (Raise e));; raise e
  else
    let e := OSError ("cannot write mode " +:+ mode img +:+ " as BMP") in
    log (EBmpSave img (Raise e));; raise e.

(** [Image.open(io.BytesIO(png))]: the pixel data is not read yet. *)
Definition Image_open (png : bytes) : M loc :=
  match image_open E png with
  | Raise e => log (EImageOpen png (Raise e));; raise e
  | Return img =>
      l ← alloc {| mode := mode img; size := size img;
                   pixels := pixels img; loaded := false |};
      log (EImageOpen png (Return l));; mret l
  end.

(** [tempfile.NamedTemporaryFile(suffix=..., delete=False)] and
    [tempfile.mkstemp(suffix=...)]: a new, empty file. *)
Definition mkstemp (suffix : string) : M string :=
  let r :=
    match tmp_name E suffix with
    | Raise e => Raise e
    | Return name => Return (gettempdir E +:+ "/tmp" +:+ name +:+ suffix)
    end in
  log (ETempCreate suffix r);;
  match r with
  | Raise e => raise e
  | Return p => f ← get_fs; set_fs (<[p := []]> f);; mret p
  end.

(** [file.write(data)] and the close that ends the [with] block. *)
Definition file_write (p : string) (data : bytes) : M unit :=
  let r := write_error E p in
  log (EWrite p data r);;
  match r with
  | Some e => raise e
  | None => f ← get_fs; set_fs (<[p := data]> f)
  end.

(** [os.close(fd)] *)
Definition os_close (p : string) : M unit := mret tt.

(** What [text=True] makes of the bytes captured from a pipe: they are
    decoded, then the newlines are translated.  [UnicodeDecodeError] is a
    [ValueError]. *)
Definition captured_text (data : bytes) : outcome string :=
  match decode_text E data with
  | Text s => Return (translate_newlines s)
  | Undecodable msg => Raise (ValueError msg)
  end.

(** [subprocess.run(command, capture_output=True, text=True)]: the child
    runs to its end, then what it wrote is turned into text, the standard
    output first. *)
Definition subprocess_run_capture (command : list string) : M CompletedProcess :=
  f ← get_fs;
  match subprocess_run E command f with
  | Raise e => log (ERun command (Raise e));; raise e
  | Return (child, f') =>
      set_fs f';;
      log (EChild command child);;
      match captured_text (out_bytes child) with
      | Raise e => log (ERun command (Raise e));; raise e
      | Return out =>
          match captured_text (err_bytes child) with
          | Raise e => log (ERun command (Raise e));; raise e
          | Return err =>
              let cp := {| returncode := exit_status child;
                           stdout := out; stderr := err |} in
              log (ERun command (Return cp));; mret cp
          end
      end
  end.

(** [with open(p, "rb") as file: file.read()] *)
Definition read_file (p : string) : M bytes :=
  f ← get_fs;
  let r :=
    match f !! p with
    | None => Raise (OSError ("[Errno 2] No such file or directory: '" +:+ p +:+ "'"))
    | Some data =>
        match read_error E p with
        | Some e => Raise e
        | None => Return data
        end
    end in
  log (EReadFile p r);;
  match r with
  | Raise e => raise e
  | Return data => mret data
  end.

(** [cairosvg.svg2png(bytestring=..., scale=..., output_width=..., output_height=...)] *)
Definition cairosvg_svg2png (bytestring : bytes) (scale : float)
    (output_width output_height : option Z) : M bytes :=
  let r := svg2png E bytestring scale output_width output_height in
  log (ESvg2Png bytestring scale output_width output_height r);;
  match r with
  | Raise e => raise e
  | Return png => mret png
  end.

(** [os.path.exists(p)] *)
Definition os_path_exists (p : string) : M bool :=
  f ← get_fs; mret (bool_decide (is_Some (f !! p))).

(** [os.remove(p)] *)
Definition os_remove (p : string) : M unit :=
  f ← get_fs;
  match f !! p with
  | None => raise (OSError ("[Errno 2] No such file or directory: '" +:+ p +:+ "'"))
  | Some _ =>
      let r := remove_error E p in
      log (ERemove p r);;
      match r with
      | Some msg => raise (OSError msg)
      | None => set_fs (delete p f)
      end
  end.

(** ** [svgutils.upscale_with_vectorization] *)

Definition potrace_missing : string :=
  "Potrace is not installed or not found in PATH. Please install Potrace and ensure it is accessible.".

(** Step 1: an RGBA image is put on a white background and made RGB. *)
Definition alpha_normalize (pil_image : loc) : M loc :=
  img ← deref pil_image;
  if String.eqb (mode img) "RGBA" then
    background ← Image_new "RGBA" (size img) [255; 255; 255; 255]%Z;
    composite ← Image_alpha_composite background pil_image;
    Image_convert composite "RGB"
  else mret pil_image.

(** Step 2 *)
Definition encode_bmp (pil_image : loc) : M bytes :=
  try_except (Image_save_bmp pil_image)
    (fun e => raise (RuntimeError
       ("Failed to convert input image to BMP in memory: " +:+ str e))).

(** The command line of step 4. *)
Definition build_command (bmp_file_path svg_file_path : string)
    (potrace_args : option (list string)) : list string :=
  let command := ["potrace"; bmp_file_path; "-s"; "-o"; svg_file_path] in
  match potrace_args with
  | Some (a :: args) => slice_assign command 1 1 (a :: args)
  | _ => command
  end.

(** Step 7 *)
Definition decode_png (png_bytes : bytes) : M loc :=
  try_except
    (output_image ← Image_open png_bytes;
     Image_load output_image;;
     Image_convert output_image "RGBA")
    (fun e => raise (RuntimeError
       ("Failed to open generated PNG as PIL Image: " +:+ str e))).

(** Steps 4 to 7, once the output file exists. *)
Definition trace_and_render (bmp_file_path svg_file_path : string)
    (potrace_args : option (list string)) (scale : float)
    (output_width output_height : option Z) : M loc :=
  os_close svg_file_path;;
  let command := build_command bmp_file_path svg_file_path potrace_args in
  result ← subprocess_run_capture command;
  if negb (returncode result =? 0)%Z then
    raise (RuntimeError ("Potrace execution failed: " +:+ stderr result))
  else
    svg_data ← try_except (read_file svg_file_path)
      (fun e => raise (RuntimeError
         ("Failed to read generated SVG file: " +:+ str e)));
    png_bytes ← try_except
      (cairosvg_svg2png svg_data scale output_width output_height)
      (fun e => raise (RuntimeError
         ("Failed to convert SVG to PNG using CairoSVG: " +:+ str e)));
    decode_png png_bytes.

(** The [try] block; the second component is [svg_file_path] as the
    [finally] block finds it: [None] until [mkstemp] has returned. *)
Definition guarded (bmp_file_path : string)
    (potrace_args : option (list string)) (scale : float)
    (output_width output_height : option Z)
    : World → outcome loc * option string * World :=
  fun w =>
    match mkstemp ".svg" w with
    | (Raise e, w1) => (Raise e, None, w1)
    | (Return svg_file_path, w1) =>
        match trace_and_render bmp_file_path svg_file_path potrace_args
                scale output_width output_height w1 with
        | (r, w2) => (r, Some svg_file_path, w2)
        end
    end.

(** The [finally] block. *)
Definition cleanup (bmp_file_path : string) (svg_file_path : option string) : M unit :=
  b ← os_path_exists bmp_file_path;
  (if (b : bool) then pass_OSError (os_remove bmp_file_path) else mret tt);;
  match svg_file_path return M unit with
  | Some p =>
      if truthy p return M unit then
        b2 ← os_path_exists p;
        if (b2 : bool) then pass_OSError (os_remove p) else mret tt
      else mret tt
  | None => mret tt
  end.

(** [scale] is [None] when the caller leaves the keyword out: the
    signature's default is 1.0.  [output_width] and [output_height]
    default to [None]. *)
Definition upscale_with_vectorization (pil_image : loc)
    (potrace_args : option (list string)) (scale : option float)
    (output_width output_height : option Z) : M loc :=
  let scale := default 1.0%float scale in
  (* Step 0 *)
  tool ← shutil_which "potrace";
  if negb (truthy_opt tool) then raise (RuntimeError potrace_missing)
  else
    (* Steps 1 and 2 *)
    pil_image ← alpha_normalize pil_image;
    bmp_data ← encode_bmp pil_image;
    (* Step 3 *)
    bmp_file_path ← mkstemp ".bmp";
    file_write bmp_file_path bmp_data;;
    (* Steps 4 to 7 and the cleanup *)
    try_finally
      (guarded bmp_file_path potrace_args scale output_width output_height)
      (cleanup bmp_file_path).

End Operations.

(** One half of the [finally] block:
    [if os.path.exists(p): try: os.remove(p) except OSError: pass] *)
Definition remove_quietly (E : Env) (p : string) : M unit :=
  b ← os_path_exists p;
  if (b : bool) then pass_OSError (os_remove E p) else mret tt.

(** [Env] with another answer for [os.remove]. *)
Definition with_remove_error (E : Env) (f : string → option string) : Env :=
  {| which := which E;
     decode_error := decode_error E;
     bmp_serialise := bmp_serialise E;
     gettempdir := gettempdir E;
     tmp_name := tmp_name E;
     write_error := write_error E;
     subprocess_run := subprocess_run E;
     decode_text := decode_text E;
     read_error := read_error E;
     svg2png := svg2png E;
     image_open := image_open E;
     pil_convert := pil_convert E;
     remove_error := f |}.

(** ** The errors of the specification, as the code raises them *)

Definition ToolNotFound : exn := RuntimeError potrace_missing.




(** ** Compositing over white, as the specification words it *)

(** A colour channel [c] of a pixel with alpha [a] over opaque white:
    [(c * a + 255 * (255 - a)) / 255], rounded to the nearest integer. *)
Definition over_white (c a : Z) : Z := ((c * a + 255 * (255 - a) + 127) / 255)%Z.

Fixpoint composite_on_white (rgba : list Z) : list Z :=
  match rgba with
  | r :: g :: b :: a :: rest =>
      over_white r a :: over_white g a :: over_white b a :: composite_on_white rest
  | _ => []
  end.

(** Merely dropping the alpha band is [rgba2rgb]. *)

(** Pillow's modes with an alpha band ([Image.getmodebands]). *)
Definition has_alpha_band (m : string) : bool :=
  bool_decide (m ∈ ["RGBA"; "LA"; "PA"; "RGBa"; "La"]).

Definition channel (z : Z) : Prop := (0 ≤ z ≤ 255)%Z.

(** The invariant of an RGBA image object: four bytes per pixel. *)
Definition wf_rgba (img : PILImage) : Prop :=
  (0 ≤ (size img).1)%Z ∧ (0 ≤ (size img).2)%Z ∧
  length (pixels img) = (4 * Z.to_nat ((size img).1 * (size img).2))%nat ∧
  Forall channel (pixels img).

(** Two image values with the same mode, size and pixel buffer. *)
Definition same_picture (a b : PILImage) : Prop :=
  mode a = mode b ∧ size a = size b ∧ pixels a = pixels b.

(** ** Frames: what an operation leaves alone *)

(** The file system and the trace are as before. *)
Definition same_files : relation World :=
  fun w w' => fs w' = fs w ∧ trace w' = trace w.

(** Every image object is still there, with its mode, size and pixels. *)
Definition keeps : relation World :=
  fun w w' => ∀ l img, heap w !! l = Some img →
    ∃ img', heap w' !! l = Some img' ∧ same_picture img img'.

(** ** What the claims say about a run, read off the trace *)

(** Paths of the temporary files a run created. *)
Definition created (t : list Event) : list string :=
  omap (fun ev => match ev with ETempCreate _ (Return p) => Some p | _ => None end) t.

(** Images handed to the BMP encoder. *)
Definition encoded (t : list Event) : list PILImage :=
  omap (fun ev => match ev with EBmpSave img _ => Some img | _ => None end) t.

(** Command lines run. *)
Definition commands (t : list Event) : list (list string) :=
  omap (fun ev => match ev with ERun c _ => Some c | _ => None end) t.

(** Tracer invocations that completed, with what they reported. *)
Definition completed (t : list Event) : list CompletedProcess :=
  omap (fun ev => match ev with ERun _ (Return cp) => Some cp | _ => None end) t.

(** Rasterize requests: scale, width, height. *)
Definition requests (t : list Event) : list (float * option Z * option Z) :=
  omap (fun ev => match ev with ESvg2Png _ s ow oh _ => Some (s, ow, oh) | _ => None end) t.

(** Removals that failed. *)
Definition failed_removals (t : list Event) : list string :=
  omap (fun ev => match ev with ERemove p (Some _) => Some p | _ => None end) t.

(** Writes that failed. *)
Definition failed_writes (t : list Event) : list string :=
  omap (fun ev => match ev with EWrite p _ (Some _) => Some p | _ => None end) t.

(** The events of the [finally] block. *)
Definition is_remove (ev : Event) : Prop :=
  match ev with
  | ERemove _ _ => True
  | _ => False
  end.

(** A request carries the scale keyword in any case; it carries exactly one
    sizing mode when it carries no explicit size next to it. *)
Definition one_sizing_mode (req : float * option Z * option Z) : Prop :=
  req.1.2 = None ∧ req.2 = None.

(** ** [install.process_wrap] and [install.handle_stream]

    The child process, the two reader threads and the calling thread run
    concurrently; the model interleaves their atomic steps.  Each of the
    three kinds of actor has at most one step it can take in a given state
    ([exec]); a schedule says who moves next. *)

(** A stream handler, as the thread that runs it sees it: in state [s] it
    either returns ([None]) or takes the next line of its stream, [None]
    at the end of the input, moves to a new state and prints lines to
    [sys.stdout] ([true]) or [sys.stderr] ([false]). *)
Record Handler := {
  hstate : Type;
  hinit : bool → hstate;
  hnext : hstate → option (option string → hstate * list (bool * string))
}.

(** [handle_stream(stream, is_stdout)]: [for msg in stream: print(msg,
    end="", file=...)].  The state is [is_stdout] and whether the loop has
    seen the end of the input.  ([stream.reconfigure] only sets the
    decoding.) *)
Definition handle_stream : Handler :=
  {| hstate := bool * bool;
     hinit := fun is_stdout => (is_stdout, false);
     hnext := fun st =>
       if st.2 then None
       else Some (fun line =>
         match line with
         | Some msg => ((st.1, false), [(st.1, msg)])
         | None => ((st.1, true), [])
         end) |}.

Inductive pc_t :=
| AtPopen | AtStartOut | AtStartErr | AtJoinOut | AtJoinErr | AtWait
| Returned (rc : Z)
| Raised (e : exn).

Inductive thread_t (S : Type) :=
| NotStarted
| Running (s : S)
| Finished.
Arguments NotStarted {S}.
Arguments Running {S} s.
Arguments Finished {S}.

Inductive child_t :=
| NotSpawned
| Alive (pending : list (bool * string))
| Exited (rc : Z).

Inductive actor :=
| Main
| Reader (is_stdout : bool)
| Child.

Definition upd {A} (b : bool) (v : A) (f : bool → A) : bool → A :=
  fun b' => if Bool.eqb b b' then v else f b'.

(** Lines printed, each to the stream it names. *)
Definition emit (out : list (bool * string)) (printed : bool → list string)
    : bool → list string :=
  fun b => (printed b ++ omap (fun o => if Bool.eqb o.1 b then Some o.2 else None) out)%list.

Section ProcessWrap.
(** [handler=None] selects [handle_stream]. *)
Variable handler : option Handler.
(** What [subprocess.Popen] does: fail, or start a child whose output
    reaches the two text streams as these lines, of its standard output
    ([true]) or of its standard error ([false]), and which exits with this
    status.  The lines are text, as the streams yield them: what the child
    wrote, decoded, with the newlines translated. *)
Variable popen_error : option exn.
Variable script : list (bool * string).
Variable status : Z.
(** Lines a pipe holds before the writer blocks. *)
Variable capacity : nat.

Definition the_handler : Handler := default handle_stream handler.

Record pstate := {
  pc : pc_t;
  reader : bool → thread_t (hstate the_handler);
  pipe : bool → list string;
  child : child_t;
  printed : bool → list string
}.

Definition pinit : pstate :=
  {| pc := AtPopen; reader := fun _ => NotStarted; pipe := fun _ => [];
     child := NotSpawned; printed := fun _ => [] |}.

Definition set_pc (p : pc_t) (s : pstate) : pstate :=
  {| pc := p; reader := reader s; pipe := pipe s; child := child s;
     printed := printed s |}.

Definition set_reader (b : bool) (t : thread_t (hstate the_handler)) (s : pstate) : pstate :=
  {| pc := pc s; reader := upd b t (reader s); pipe := pipe s; child := child s;
     printed := printed s |}.

(** The calling thread: [process_wrap]'s statements, one by one. *)
Definition exec_main (s : pstate) : option pstate :=
  match pc s with
  | AtPopen =>
      match popen_error with
      | Some e => Some (set_pc (Raised e) s)
      | None =>
          Some {| pc := AtStartOut; reader := reader s; pipe := pipe s;
                  child := Alive script; printed := printed s |}
      end
  | AtStartOut =>
      Some (set_pc AtStartErr (set_reader true (Running (hinit the_handler true)) s))
  | AtStartErr =>
      Some (set_pc AtJoinOut (set_reader false (Running (hinit the_handler false)) s))
  | AtJoinOut =>
      match reader s true with
      | Finished => Some (set_pc AtJoinErr s)
      | _ => None
      end
  | AtJoinErr =>
      match reader s false with
      | Finished => Some (set_pc AtWait s)
      | _ => None
      end
  | AtWait =>
      match child s with
      | Exited rc => Some (set_pc (Returned rc) s)
      | _ => None
      end
  | Returned _ => None
  | Raised _ => None
  end.

(** A reader thread: the handler on its stream.  Reading an empty pipe
    blocks while the child lives and gives the end of input after. *)
Definition exec_reader (b : bool) (s : pstate) : option pstate :=
  match reader s b with
  | Running hs =>
      match hnext the_handler hs with
      | None => Some (set_reader b Finished s)
      | Some k =>
          match pipe s b with
          | msg :: rest =>
              Some {| pc := pc s;
                      reader := upd b (Running (k (Some msg)).1) (reader s);
                      pipe := upd b rest (pipe s);
                      child := child s;
                      printed := emit (k (Some msg)).2 (printed s) |}
          | [] =>
              match child s with
              | Exited _ =>
                  Some {| pc := pc s;
                          reader := upd b (Running (k None).1) (reader s);
                          pipe := pipe s;
                          child := child s;
                          printed := emit (k None).2 (printed s) |}
              | _ => None
              end
          end
      end
  | _ => None
  end.

(** The child: writes its next line if the pipe has room, exits when it
    has nothing left to write. *)
Definition exec_child (s : pstate) : option pstate :=
  match child s with
  | Alive ((b, msg) :: rest) =>
      if (length (pipe s b) <? capacity)%nat then
        Some {| pc := pc s; reader := reader s;
                pipe := upd b (pipe s b ++ [msg])%list (pipe s);
                child := Alive rest; printed := printed s |}
      else None
  | Alive [] =>
      Some {| pc := pc s; reader := reader s; pipe := pipe s;
              child := Exited status; printed := printed s |}
  | _ => None
  end.

Definition exec (a : actor) (s : pstate) : option pstate :=
  match a with
  | Main => exec_main s
  | Reader b => exec_reader b s
  | Child => exec_child s
  end.

(** Running a schedule; [None] when it asks a blocked actor to move. *)
Fixpoint run (sched : list actor) (s : pstate) : option pstate :=
  match sched with
  | [] => Some s
  | a :: sched' =>
      match exec a s with
      | Some s' => run sched' s'
      | None => None
      end
  end.

(** The states [process_wrap] can be in. *)
Inductive reachable : pstate → Prop :=
| reach_init : reachable pinit
| reach_step a s s' : reachable s → exec a s = Some s' → reachable s'.

(** Lines the child writes to one of its streams, in order. *)
Definition lines_of (b : bool) (l : list (bool * string)) : list string :=
  omap (fun o => if Bool.eqb o.1 b then Some o.2 else None) l.




End ProcessWrap.


(** What holds in every state of [process_wrap] when the handler is
    [handle_stream]: no line is lost or made up, a reader that has seen the
    end of its stream has an empty pipe and a dead child behind it. *)
Section DefaultHandler.
Variable script : list (bool * string).
Variable status : Z.

(** Lines the child has still to write. *)
Definition remaining (c : child_t) : list (bool * string) :=
  match c with
  | NotSpawned => script
  | Alive p => p
  | Exited _ => []
  end.

Record inv (s : pstate None) : Prop := {
  inv_conserve : ∀ b,
    (printed _ s b ++ pipe _ s b ++ lines_of b (remaining (child _ s)))%list
    = lines_of b script;
  inv_reader : ∀ b,
    match reader _ s b with
    | NotStarted => True
    | Running st =>
        st.1 = b ∧ (st.2 = true → pipe _ s b = [] ∧ ∃ rc, child _ s = Exited rc)
    | Finished => pipe _ s b = [] ∧ ∃ rc, child _ s = Exited rc
    end;
  inv_status : ∀ rc, child _ s = Exited rc → rc = status;
  inv_pc : ∀ rc, pc _ s = Returned rc → child _ s = Exited rc;
  inv_popen : pc _ s = AtPopen → child _ s = NotSpawned
}.

End DefaultHandler.

(** ** How far [process_wrap] is from its end

    A bound on the steps still to come when the handler is [handle_stream]:
    the statements the caller has left, what each reader has left (start,
    end of input, return), a write and a read for each line the child has
    not written yet, a read for each line in a pipe, and the child's exit. *)

Definition pc_weight (p : pc_t) : nat :=
  match p with
  | AtPopen => 18
  | AtStartOut => 15
  | AtStartErr => 12
  | AtJoinOut => 9
  | AtJoinErr => 6
  | AtWait => 3
  | Returned _ | Raised _ => 0
  end.

Definition reader_weight (t : thread_t (bool * bool)) : nat :=
  match t with
  | NotStarted => 3
  | Running st => if st.2 then 1 else 2
  | Finished => 0
  end.

Definition child_weight (script : list (bool * string)) (c : child_t) : nat :=
  match c with
  | NotSpawned => 2 * length script + 1
  | Alive pending => 2 * length pending + 1
  | Exited _ => 0
  end.

Definition weight (script : list (bool * string)) (s : pstate None) : nat :=
  pc_weight (pc _ s) + reader_weight (reader _ s true)
  + reader_weight (reader _ s false) + child_weight script (child _ s)
  + length (pipe _ s true) + length (pipe _ s false).



(** Nothing has been started. *)
Definition idle (handler : option Handler) (s : pstate handler) : Prop :=
  child _ s = NotSpawned ∧
  ∀ b, reader _ s b = NotStarted ∧ pipe _ s b = [] ∧ printed _ s b = [].



(** ** A run from a fresh trace *)

Definition run_upscale (E : Env) (pil_image : loc)
    (potrace_args : option (list string)) (scale : option float)
    (output_width output_height : option Z)
    (files : gmap string bytes) (images : gmap loc PILImage)
    : outcome loc * World :=
  upscale_with_vectorization E pil_image potrace_args scale
    output_width output_height (initial_world files images).

(** Two runs agree when they give the caller the same thing: the same
    outcome, and the same image objects. *)
Definition agree (x y : outcome loc * World) : Prop :=
  x.1 = y.1 ∧ heap x.2 = heap y.2.

(** ** What the specification claims of every run, where the code differs *)

(** No temporary file the run created is left. *)
Definition no_temp_file_left (E : Env) (pil_image : loc)
    (potrace_args : option (list string)) (scale : option float)
    (output_width output_height : option Z)
    (files : gmap string bytes) (images : gmap loc PILImage) : Prop :=
  let w' := (run_upscale E pil_image potrace_args scale output_width
               output_height files images).2 in
  ∀ p, p ∈ created (trace w') → fs w' !! p = None.

(** An image with an alpha band never reaches the BMP encoder with it. *)
Definition alpha_never_encoded (E : Env) (pil_image : loc)
    (potrace_args : option (list string)) (scale : option float)
    (output_width output_height : option Z)
    (files : gmap string bytes) (images : gmap loc PILImage) : Prop :=
  let w' := (run_upscale E pil_image potrace_args scale output_width
               output_height files images).2 in
  ∀ img, images !! pil_image = Some img → has_alpha_band (mode img) = true →
  ∀ enc, enc ∈ encoded (trace w') → has_alpha_band (mode enc) = false.


(** Every rasterize request carries exactly one sizing mode. *)
Definition one_sizing_mode_each (E : Env) (pil_image : loc)
    (potrace_args : option (list string)) (scale : option float)
    (output_width output_height : option Z)
    (files : gmap string bytes) (images : gmap loc PILImage) : Prop :=
  let w' := (run_upscale E pil_image potrace_args scale output_width
               output_height files images).2 in
  ∀ req, req ∈ requests (trace w') → one_sizing_mode req.

(** ** Sample environments and images *)

(** Everything works: potrace is installed and writes its output file (the
    last argument of the command line), the renderer gives a 2 x 1 RGB
    picture.  The locale's encoding has a character for every byte. *)
Definition sample_env : Env :=
  {| which := fun name =>
       if String.eqb name "potrace" then Some "/usr/bin/potrace" else None;
     decode_error := fun _ => None;
     bmp_serialise := fun _ => [x42; x4d];
     gettempdir := "/tmp";
     tmp_name := fun _ => Return "a1b2c3";
     write_error := fun _ => None;
     subprocess_run := fun command files =>
       Return ({| exit_status := 0; out_bytes := []; err_bytes := [] |},
               <[List.last command "" := [x3c; x73; x76; x67; x3e]]> files);
     decode_text := fun data => Text (string_of_list_byte data);
     read_error := fun _ => None;
     svg2png := fun _ _ _ _ => Return [x89; x50; x4e; x47];
     image_open := fun _ =>
       Return {| mode := "RGB"; size := (2, 1)%Z;
                 pixels := [1; 2; 3; 4; 5; 6]%Z; loaded := false |};
     pil_convert := fun src dst _ =>
       Raise (ValueError ("conversion from " +:+ src +:+ " to " +:+ dst +:+ " not supported"));
     remove_error := fun _ => None |}.

(** potrace is not on the search path. *)
Definition no_potrace_env : Env :=
  {| which := fun _ => None;
     decode_error := decode_error sample_env;
     bmp_serialise := bmp_serialise sample_env;
     gettempdir := gettempdir sample_env;
     tmp_name := tmp_name sample_env;
     write_error := write_error sample_env;
     subprocess_run := subprocess_run sample_env;
     decode_text := decode_text sample_env;
     read_error := read_error sample_env;
     svg2png := svg2png sample_env;
     image_open := image_open sample_env;
     pil_convert := pil_convert sample_env;
     remove_error := remove_error sample_env |}.

(** potrace rejects its input. *)
Definition failing_potrace_env : Env :=
  {| which := which sample_env;
     decode_error := decode_error sample_env;
     bmp_serialise := bmp_serialise sample_env;
     gettempdir := gettempdir sample_env;
     tmp_name := tmp_name sample_env;
     write_error := write_error sample_env;
     subprocess_run := fun _ files =>
       Return ({| exit_status := 2; out_bytes := [];
                  err_bytes := list_byte_of_string "potrace: bad magic number" |},
               files);
     decode_text := decode_text sample_env;
     read_error := read_error sample_env;
     svg2png := svg2png sample_env;
     image_open := image_open sample_env;
     pil_convert := pil_convert sample_env;
     remove_error := remove_error sample_env |}.


(** The temporary files cannot be removed. *)
Definition locked_files_env : Env :=
  with_remove_error sample_env (fun _ => Some "[Errno 13] Permission denied").

(** Two RGBA pixels: fully transparent black, half transparent (10, 20, 30). *)
Definition rgba_image : PILImage :=
  {| mode := "RGBA"; size := (2, 1)%Z;
     pixels := [0; 0; 0; 0; 10; 20; 30; 128]%Z; loaded := true |}.

Definition rgb_image : PILImage :=
  {| mode := "RGB"; size := (1, 1)%Z; pixels := [10; 20; 30]%Z; loaded := true |}.

(** One pixel of grey with alpha: fully transparent black. *)
Definition la_image : PILImage :=
  {| mode := "LA"; size := (1, 1)%Z; pixels := [0; 0]%Z; loaded := true |}.

(** ** Sample runs *)

(** An opaque picture, default sizing. *)
Definition plain_run : outcome loc * World :=
  run_upscale sample_env 0 None None None None ∅ {[0%nat := rgb_image]}.

(** The same picture with an explicit output size, as
    [VectorizedUpscaleSize] asks for it. *)
Definition sized_run : outcome loc * World :=
  run_upscale sample_env 0 None None (Some 512%Z) (Some 512%Z) ∅
    {[0%nat := rgb_image]}.

(** Extra arguments for potrace. *)
Definition tuned_run : outcome loc * World :=
  run_upscale sample_env 0 (Some ["-t"; "5"]) None None None ∅
    {[0%nat := rgb_image]}.

(** A picture with transparency. *)
Definition rgba_run : outcome loc * World :=
  run_upscale sample_env 0 None None None None ∅ {[0%nat := rgba_image]}.

Definition no_potrace_run : outcome loc * World :=
  run_upscale no_potrace_env 0 None None None None ∅ {[0%nat := rgb_image]}.

Definition failing_potrace_run : outcome loc * World :=
  run_upscale failing_potrace_env 0 None None None None ∅ {[0%nat := rgb_image]}.



(** A child that writes one line to each stream, and a schedule that lets
    [process_wrap] run to its end: the three actors take turns. *)
Definition sample_script : list (bool * string) :=
  [(true, "out" +:+ String LF ""); (false, "err")].


Definition sample_schedule : list actor :=
  [Main; Main; Main; Child; Reader true; Child; Reader false; Child;
   Reader true; Reader true; Reader false; Reader false; Main; Main; Main].

Definition sample_final : pstate None :=
  default (pinit None)
    (run None None sample_script 0 1 sample_schedule (pinit None)).


(** ** Proof devices *)

(** A hypothesis that has been used up by [stage_facts]. *)
Definition used (P : Prop) : Prop := P.

(** * More of the code *)

(** ** The nodes of [svg_node.py] that call the pipeline

    [image] is the PIL image [PILHandlingHodes.handle_input] has made of
    the node's input; the nodes return the result as a tuple of one. *)

(** [VectorizedUpscaleScaling.vectorized_upscale(image, scale)] *)
Definition vectorized_upscale (E : Env) (image : loc) (scale : float) : M loc :=
  upscale_with_vectorization E image None (Some scale) None None.

(** [VectorizedUpscaleSize.vectorized_upscale_size(image, width, height)] *)
Definition vectorized_upscale_size (E : Env) (image : loc) (width height : Z)
    : M loc :=
  upscale_with_vectorization E image None None (Some width) (Some height).

(** ** [install.py]: installing the requirements *)

(** [needle in s], for two strings. *)
Fixpoint contains (needle s : string) : bool :=
  String.prefix needle s ||
  match s with
  | EmptyString => false
  | String _ s' => contains needle s'
  end.

(** The module-level [pip_install], from [sys.executable]. *)
Definition pip_install (executable : string) : list string :=
  if contains "python_embeded" executable || contains "python_embedded" executable
  then [executable; "-s"; "-m"; "pip"; "install"; "-U"]
  else [executable; "-m"; "pip"; "install"; "-U"].

(** What [__import__(req)] does: it returns, raises [ImportError] (or a
    subclass), or raises something else. *)
Inductive import_result :=
| Imported
| ImportError
| ImportRaised (e : exn).

(** What the installer does, in order: lines printed to the standard
    output (without the newline), imports tried, commands handed to
    [process_wrap]. *)
Inductive IEvent :=
| IPrint (text : string)
| IImport (name : string) (res : import_result)
| IWrap (cmd_str : list string) (res : outcome Z).

(** The machine the installer runs on.  An import and a command may depend
    on what has happened before (a package installed a moment ago can be
    imported). *)
Record Host := {
  executable : string;
  read_requirements : outcome (list string);
  import_module : list IEvent → string → import_result;
  wrap : list IEvent → list string → outcome Z
}.

(** The installer's functions: from what has happened so far to an outcome
    and what has happened by then. *)
Definition Installer (A : Type) := list IEvent → outcome A * list IEvent.

(** [run_installation(pkg_name)] *)
Definition run_installation (host : Host) (pkg_name : string) : Installer unit :=
  fun t =>
    let t1 := t ++ [IPrint ("Installing " +:+ pkg_name +:+ "...")] in
    let cmd_str := pip_install (executable host) ++ [pkg_name] in
    let res := wrap host t1 cmd_str in
    let t2 := t1 ++ [IWrap cmd_str res] in
    match res with
    | Raise e => (Raise e, t2)
    | Return rc =>
        if (rc =? 0)%Z
        then (Return tt, t2 ++ [IPrint ("Successfully installed " +:+ pkg_name)])
        else (Return tt, t2 ++ [IPrint ("Failed to install " +:+ pkg_name)])
    end.

(** The loop of [initialization]. *)
Fixpoint install_each (host : Host) (requirements : list string) : Installer unit :=
  fun t =>
    match requirements with
    | [] => (Return tt, t)
    | req :: rest =>
        let res := import_module host t req in
        let t1 := t ++ [IImport req res] in
        match res with
        | Imported =>
            install_each host rest (t1 ++ [IPrint (req +:+ " already installed.")])
        | ImportError =>
            match run_installation host req t1 with
            | (Return _, t2) => install_each host rest t2
            | (Raise e, t2) => (Raise e, t2)
            end
        | ImportRaised e => (Raise e, t1)
        end
    end.

(** [initialization()] *)
Definition initialization (host : Host) : Installer unit :=
  fun t =>
    match read_requirements host with
    | Raise e => (Raise e, t)
    | Return requirements => install_each host requirements t
    end.

(** The script: [initialization(); print("Installation completed.")] *)
Definition install_main (host : Host) : Installer unit :=
  fun t =>
    match initialization host t with
    | (Return _, t1) => (Return tt, t1 ++ [IPrint "Installation completed."])
    | (Raise e, t1) => (Raise e, t1)
    end.

(** Names of the modules the installer tried to import. *)
Definition tried (t : list IEvent) : list string :=
  omap (fun ev => match ev with IImport name _ => Some name | _ => None end) t.

(** Those that could not be imported. *)
Definition missing (t : list IEvent) : list string :=
  omap (fun ev => match ev with IImport name ImportError => Some name | _ => None end) t.

(** Commands handed to [process_wrap]. *)
Definition launched (t : list IEvent) : list (list string) :=
  omap (fun ev => match ev with IWrap cmd_str _ => Some cmd_str | _ => None end) t.

(** A host with an embedded Python where [numpy] is there, [cairosvg] is
    not and pip fails for it, and [PIL] is not and pip succeeds. *)
Definition sample_host : Host :=
  {| executable := "C:\ComfyUI\python_embeded\python.exe";
     read_requirements := Return ["numpy"; "cairosvg"; "PIL"];
     import_module := fun _ name =>
       if String.eqb name "numpy" then Imported else ImportError;
     wrap := fun _ cmd_str =>
       if String.eqb (List.last cmd_str "") "cairosvg" then Return 1%Z
       else Return 0%Z |}.

(** pip cannot be started. *)
Definition no_pip_host : Host :=
  {| executable := "/usr/bin/python3";
     read_requirements := Return ["cairosvg"];
     import_module := fun _ _ => ImportError;
     wrap := fun _ _ => Raise (OSError "[Errno 12] Cannot allocate memory") |}.

(** ** More sample environments and runs *)

(** The disk is full: the bitmap cannot be written. *)
Definition full_disk_env : Env :=
  {| which := which sample_env;
     decode_error := decode_error sample_env;
     bmp_serialise := bmp_serialise sample_env;
     gettempdir := gettempdir sample_env;
     tmp_name := tmp_name sample_env;
     write_error := fun _ => Some (OSError "[Errno 28] No space left on device");
     subprocess_run := subprocess_run sample_env;
     decode_text := decode_text sample_env;
     read_error := read_error sample_env;
     svg2png := svg2png sample_env;
     image_open := image_open sample_env;
     pil_convert := pil_convert sample_env;
     remove_error := remove_error sample_env |}.

(** The renderer rejects the SVG. *)
Definition broken_renderer_env : Env :=
  {| which := which sample_env;
     decode_error := decode_error sample_env;
     bmp_serialise := bmp_serialise sample_env;
     gettempdir := gettempdir sample_env;
     tmp_name := tmp_name sample_env;
     write_error := write_error sample_env;
     subprocess_run := subprocess_run sample_env;
     decode_text := decode_text sample_env;
     read_error := read_error sample_env;
     svg2png := fun _ _ _ _ => Raise (ValueError "no element found");
     image_open := image_open sample_env;
     pil_convert := pil_convert sample_env;
     remove_error := remove_error sample_env |}.

(** potrace is found by [shutil.which] and cannot be executed. *)
Definition vanished_potrace_env : Env :=
  {| which := which sample_env;
     decode_error := decode_error sample_env;
     bmp_serialise := bmp_serialise sample_env;
     gettempdir := gettempdir sample_env;
     tmp_name := tmp_name sample_env;
     write_error := write_error sample_env;
     subprocess_run := fun _ _ =>
       Raise (OSError "[Errno 13] Permission denied: 'potrace'");
     decode_text := decode_text sample_env;
     read_error := read_error sample_env;
     svg2png := svg2png sample_env;
     image_open := image_open sample_env;
     pil_convert := pil_convert sample_env;
     remove_error := remove_error sample_env |}.

Definition la_run : outcome loc * World :=
  run_upscale sample_env 0 None None None None ∅ {[0%nat := la_image]}.

Definition full_disk_run : outcome loc * World :=
  run_upscale full_disk_env 0 None None None None ∅ {[0%nat := rgb_image]}.

Definition broken_renderer_run : outcome loc * World :=
  run_upscale broken_renderer_env 0 None None None None ∅ {[0%nat := rgb_image]}.

Definition vanished_potrace_run : outcome loc * World :=
  run_upscale vanished_potrace_env 0 None None None None ∅ {[0%nat := rgb_image]}.

(** A file of the user's is there during the run. *)
Definition user_files : gmap string bytes := {["/home/me/cat.png" := [x89; x50]]}.

Definition user_files_run : outcome loc * World :=
  run_upscale failing_potrace_env 0 None None None None user_files
    {[0%nat := rgb_image]}.

(** One opaque RGBA pixel. *)
Definition opaque_image : PILImage :=
  {| mode := "RGBA"; size := (1, 1)%Z; pixels := [10; 20; 30; 255]%Z;
     loaded := true |}.

(** One transparent RGBA pixel. *)
Definition clear_image : PILImage :=
  {| mode := "RGBA"; size := (1, 1)%Z; pixels := [10; 20; 30; 0]%Z;
     loaded := true |}.

Definition scaling_node_run : outcome loc * World :=
  vectorized_upscale sample_env 0 2.0%float
    (initial_world ∅ {[0%nat := rgb_image]}).

Definition size_node_run : outcome loc * World :=
  vectorized_upscale_size sample_env 0 512 512
    (initial_world ∅ {[0%nat := rgb_image]}).


(** [Popen] fails. *)
Definition popen_failure : exn := OSError "[Errno 2] No such file or directory: 'pip'".

Definition sample_failed_launch : pstate None :=
  default (pinit None)
    (run None (Some popen_failure) sample_script 0 1 [Main] (pinit None)).

(** Worlds that hold one RGBA image, at location 0. *)
Definition rgba_world : World := initial_world ∅ {[0%nat := rgba_image]}.

Definition opaque_world : World := initial_world ∅ {[0%nat := opaque_image]}.

Definition clear_world : World := initial_world ∅ {[0%nat := clear_image]}.

(** * Properties *)

(** ** The monad *)

Lemma mbind_unfold {A B} (c : M A) (k : A → M B) w :
  (c ≫= k) w =
  match c w with
  | (Return a, w1) => k a w1
  | (Raise e, w1) => (Raise e, w1)
  end.
Proof. reflexivity. Qed.

Section Respects.
Context (R : relation World) `{!PreOrder R}.

Lemma respects_ret {A} (a : A) : respects R (mret a).
Proof. intros w. simpl. reflexivity. Qed.

Lemma respects_raise {A} (e : exn) : respects R (@raise A e).
Proof. intros w. simpl. reflexivity. Qed.

Lemma respects_bind {A B} (c : M A) (k : A → M B) :
  respects R c → (∀ a, respects R (k a)) → respects R (c ≫= k).
Proof.
  intros Hc Hk w. rewrite mbind_unfold.
  specialize (Hc w). destruct (c w) as [[a|e] w1]; simpl in *; [|done].
  etrans; [done|]. apply Hk.
Qed.

Lemma respects_try_except {A} (c : M A) (h : exn → M A) :
  respects R c → (∀ e, respects R (h e)) → respects R (try_except c h).
Proof.
  intros Hc Hh w. unfold try_except.
  specialize (Hc w). destruct (c w) as [[a|e] w1]; simpl in *; [done|].
  etrans; [done|]. apply Hh.
Qed.

Lemma respects_pass_OSError (c : M unit) :
  respects R c → respects R (pass_OSError c).
Proof.
  intros Hc w. unfold pass_OSError.
  specialize (Hc w). destruct (c w) as [[a|e] w1]; simpl in *; [done|].
  by destruct (is_OSError e).
Qed.

Lemma respects_get_fs : respects R get_fs.
Proof. intros w. simpl. reflexivity. Qed.

Lemma respects_get_heap : respects R get_heap.
Proof. intros w. simpl. reflexivity. Qed.

Lemma respects_deref l : respects R (deref l).
Proof.
  intros w. unfold deref. rewrite mbind_unfold. simpl.
  destruct (heap w !! l); simpl; reflexivity.
Qed.
End Respects.

(** ** Frames: what each operation leaves alone *)

#[local] Instance same_files_preorder : PreOrder same_files.
Proof.
  split.
  - by intros w.
  - intros w1 w2 w3 [? ?] [? ?]. split; congruence.
Qed.

Lemma same_picture_refl img : same_picture img img.
Proof. by repeat split. Qed.

Lemma same_picture_trans a b c : same_picture a b → same_picture b c → same_picture a c.
Proof. intros (?&?&?) (?&?&?). repeat split; congruence. Qed.

#[local] Instance keeps_preorder : PreOrder keeps.
Proof.
  split.
  - intros w l img ?. eauto using same_picture_refl.
  - intros w1 w2 w3 H12 H23 l img Hl.
    destruct (H12 l img Hl) as (img2 & Hl2 & ?).
    destruct (H23 l img2 Hl2) as (img3 & ? & ?).
    eauto using same_picture_trans.
Qed.

Lemma keeps_same_heap w w' : heap w' = heap w → keeps w w'.
Proof. intros Hh l img ?. rewrite Hh. eauto using same_picture_refl. Qed.

Create HintDb frames discriminated.

Ltac frame_step :=
  lazymatch goal with
  | |- respects _ (mret _) => apply respects_ret; tc_solve
  | |- respects _ (raise _) => apply respects_raise; tc_solve
  | |- respects _ (mbind _ _) => apply respects_bind; [tc_solve| |intros ?]
  | |- respects _ (try_except _ _) => apply respects_try_except; [tc_solve| |intros ?]
  | |- respects _ (pass_OSError _) => apply respects_pass_OSError
  | |- respects _ get_fs => apply respects_get_fs; tc_solve
  | |- respects _ get_heap => apply respects_get_heap; tc_solve
  | |- respects _ (deref _) => apply respects_deref; tc_solve
  | |- respects _ (match ?x with _ => _ end) => destruct x
  | |- respects _ _ => first [ solve [eauto with frames] | progress cbv zeta ]
  end.

Ltac frames := repeat frame_step.

(** *** Heap primitives *)

Lemma set_heap_same_files h : respects same_files (set_heap h).
Proof. by intros w. Qed.

Lemma log_keeps ev : respects keeps (log ev).
Proof. intros w. by apply keeps_same_heap. Qed.

Lemma set_fs_keeps f : respects keeps (set_fs f).
Proof. intros w. by apply keeps_same_heap. Qed.

#[global] Hint Resolve set_heap_same_files log_keeps set_fs_keeps : frames.

Lemma store_same_files l img : respects same_files (store l img).
Proof. unfold store. frames. Qed.

Lemma alloc_same_files img : respects same_files (alloc img).
Proof. unfold alloc. frames. Qed.

Lemma alloc_keeps img : respects keeps (alloc img).
Proof.
  intros w l img0 Hl. unfold alloc. simpl.
  exists img0. split; [|apply same_picture_refl].
  rewrite lookup_insert_ne; [done|].
  intros <-. apply (is_fresh (dom (heap w))), elem_of_dom. eauto.
Qed.

#[global] Hint Resolve store_same_files alloc_same_files alloc_keeps : frames.

Section FrameOps.
Variable E : Env.

Lemma Image_load_same_files l : respects same_files (Image_load E l).
Proof. unfold Image_load. frames. Qed.

Lemma Image_load_keeps l : respects keeps (Image_load E l).
Proof.
  intros w l0 img0 Hl0. unfold Image_load, deref.
  rewrite !mbind_unfold. simpl.
  destruct (heap w !! l) as [img|] eqn:Hl; simpl;
    [|eauto using same_picture_refl].
  destruct (loaded img); simpl; [eauto using same_picture_refl|].
  destruct (decode_error E img); simpl; [eauto using same_picture_refl|].
  destruct (decide (l = l0)) as [->|Hne].
  - rewrite lookup_insert_eq. simplify_eq. eexists. split; [done|].
    by repeat split.
  - rewrite lookup_insert_ne by done. eauto using same_picture_refl.
Qed.

Hint Resolve Image_load_same_files Image_load_keeps : frames.

Lemma Image_new_same_files m sz c : respects same_files (Image_new m sz c).
Proof. unfold Image_new. frames. Qed.

Lemma Image_new_keeps m sz c : respects keeps (Image_new m sz c).
Proof. unfold Image_new. frames. Qed.

Lemma Image_alpha_composite_same_files a b :
  respects same_files (Image_alpha_composite E a b).
Proof. unfold Image_alpha_composite. frames. Qed.

Lemma Image_alpha_composite_keeps a b :
  respects keeps (Image_alpha_composite E a b).
Proof. unfold Image_alpha_composite. frames. Qed.

Lemma Image_convert_same_files l m : respects same_files (Image_convert E l m).
Proof. unfold Image_convert. frames. Qed.

Lemma Image_convert_keeps l m : respects keeps (Image_convert E l m).
Proof. unfold Image_convert. frames. Qed.

Hint Resolve Image_new_same_files Image_new_keeps
  Image_alpha_composite_same_files Image_alpha_composite_keeps
  Image_convert_same_files Image_convert_keeps : frames.

Lemma alpha_normalize_same_files l : respects same_files (alpha_normalize E l).
Proof. unfold alpha_normalize. frames. Qed.

Lemma alpha_normalize_keeps l : respects keeps (alpha_normalize E l).
Proof. unfold alpha_normalize. frames. Qed.

Lemma Image_save_bmp_keeps l : respects keeps (Image_save_bmp E l).
Proof. unfold Image_save_bmp. frames. Qed.

Lemma Image_open_keeps png : respects keeps (Image_open E png).
Proof. unfold Image_open. frames. Qed.

Hint Resolve alpha_normalize_keeps Image_save_bmp_keeps Image_open_keeps : frames.

Lemma encode_bmp_keeps l : respects keeps (encode_bmp E l).
Proof. unfold encode_bmp. frames. Qed.

Lemma decode_png_keeps png : respects keeps (decode_png E png).
Proof. unfold decode_png. frames. Qed.

Lemma mkstemp_keeps suffix : respects keeps (mkstemp E suffix).
Proof. unfold mkstemp. frames. Qed.

Lemma file_write_keeps p data : respects keeps (file_write E p data).
Proof. unfold file_write. frames. Qed.

Lemma subprocess_run_capture_keeps cmd : respects keeps (subprocess_run_capture E cmd).
Proof. unfold subprocess_run_capture. frames. Qed.

Lemma read_file_keeps p : respects keeps (read_file E p).
Proof. unfold read_file. frames. Qed.

Lemma cairosvg_svg2png_keeps b s ow oh : respects keeps (cairosvg_svg2png E b s ow oh).
Proof. unfold cairosvg_svg2png. frames. Qed.

Lemma os_remove_keeps p : respects keeps (os_remove E p).
Proof. unfold os_remove. frames. Qed.

Hint Resolve encode_bmp_keeps decode_png_keeps mkstemp_keeps file_write_keeps
  subprocess_run_capture_keeps read_file_keeps cairosvg_svg2png_keeps
  os_remove_keeps : frames.

Lemma trace_and_render_keeps bmp svg args scale ow oh :
  respects keeps (trace_and_render E bmp svg args scale ow oh).
Proof. unfold trace_and_render, os_close. frames. Qed.

Lemma cleanup_keeps bmp svg : respects keeps (cleanup E bmp svg).
Proof. unfold cleanup, os_path_exists. frames. Qed.
End FrameOps.

(** ** Compositing over white *)

Local Open Scope Z_scope.

Lemma u32_small z : 0 ≤ z < 4294967296 → u32 z = z.
Proof.
  intros H. unfold u32. apply Z.mod_small.
  change (2 ^ 32) with 4294967296. lia.
Qed.

(** The shifts of [SHIFTFORDIV255] divide by 255, rounding to nearest, on
    the range the blend of two bytes can take (seven extra bits). *)
Lemma div255_shift X :
  0 ≤ X ≤ 65025 →
  u8 (Z.shiftr (SHIFTFORDIV255 (128 * X + 16384)) 7) = (X + 127) / 255.
Proof.
  intros HX. unfold SHIFTFORDIV255, u8.
  rewrite !Z.shiftr_div_pow2 by lia.
  change (2 ^ 8) with 256. change (2 ^ 7) with 128.
  Z.to_euclidean_division_equations; lia.
Qed.

Lemma blend_channel_white c a :
  channel c → channel a →
  blend_channel c 255 (a * 128) ((255 - a) * 128) = over_white c a.
Proof.
  intros [? ?] [? ?]. unfold blend_channel, over_white. cbv zeta.
  change (Z.shiftl 128 PRECISION_BITS) with 16384.
  assert (0 ≤ c * a ≤ 255 * a) by nia.
  replace (c * (a * 128) + 255 * ((255 - a) * 128))
    with (128 * (c * a + 255 * (255 - a))) by ring.
  set (X := c * a + 255 * (255 - a)).
  assert (0 ≤ X ≤ 65025) by (unfold X; lia).
  rewrite (u32_small (128 * X)) by lia.
  rewrite u32_small by lia.
  by apply div255_shift.
Qed.

Lemma over_white_transparent c : over_white c 0 = 255.
Proof.
  unfold over_white.
  replace (c * 0 + 255 * (255 - 0) + 127) with (255 * 255 + 127) by lia.
  reflexivity.
Qed.

(** [composite_pixel] over an opaque white pixel is [over_white] on each
    colour channel, and opaque. *)
Lemma composite_pixel_white r g b a :
  channel r → channel g → channel b → channel a →
  composite_pixel 255 255 255 255 r g b a
  = [over_white r a; over_white g a; over_white b a; 255].
Proof.
  intros Hr Hg Hb Ha. unfold composite_pixel.
  destruct (a =? 0) eqn:Ha0.
  - apply Z.eqb_eq in Ha0 as ->. by rewrite !over_white_transparent.
  - cbv zeta. change (Z.shiftl 1 PRECISION_BITS) with 128.
    pose proof Ha as [? ?].
    rewrite (u32_small (255 * (255 - a))) by lia.
    replace (a * 255 + 255 * (255 - a)) with 65025 by lia.
    rewrite (u32_small 65025) by lia.
    rewrite (u32_small (a * 255 * 255 * 128)) by lia.
    replace (a * 255 * 255 * 128) with (a * 128 * 65025) by lia.
    rewrite Z.div_mul by lia.
    replace (255 * 128 - a * 128) with ((255 - a) * 128) by lia.
    rewrite (u32_small ((255 - a) * 128)) by lia.
    by rewrite !blend_channel_white.
Qed.

(** Over white an opaque pixel keeps its colour (a fully transparent one is
    white, see above), and every result lies between the colour and white. *)

Lemma over_white_opaque c : over_white c 255 = c.
Proof.
  unfold over_white.
  replace (c * 255 + 255 * (255 - 255) + 127) with (c * 255 + 127) by lia.
  rewrite Z.div_add_l by lia. replace (127 / 255) with 0 by reflexivity. lia.
Qed.

Lemma over_white_range c a : channel c → channel a → c ≤ over_white c a ≤ 255.
Proof.
  intros [? ?] [? ?]. unfold over_white. split.
  - apply Z.div_le_lower_bound; [lia|]. nia.
  - apply Z.lt_succ_r, Z.div_lt_upper_bound; [lia|]. nia.
Qed.

Lemma white_buffer_succ n :
  mjoin (replicate (S n) [255; 255; 255; 255])
  = 255 :: 255 :: 255 :: 255 :: mjoin (replicate n [255; 255; 255; 255]).
Proof. reflexivity. Qed.

(** A whole buffer: compositing over a white image of the same size and
    dropping the (now opaque) alpha band is [composite_on_white]. *)
Lemma composite_buffer_white n (buf : list Z) :
  length buf = (4 * n)%nat → Forall channel buf →
  rgba2rgb (alpha_composite_buffer (mjoin (replicate n [255; 255; 255; 255])) buf)
  = composite_on_white buf.
Proof.
  revert buf. induction n as [|n IH]; intros buf Hlen Hch.
  - by destruct buf.
  - destruct buf as [|r [|g [|b [|a rest]]]]; simpl in Hlen; try lia.
    rewrite white_buffer_succ.
    apply Forall_cons in Hch as [Hr Hch].
    apply Forall_cons in Hch as [Hg Hch].
    apply Forall_cons in Hch as [Hb Hch].
    apply Forall_cons in Hch as [Ha Hch].
    cbn [alpha_composite_buffer].
    rewrite composite_pixel_white by done.
    cbn [app rgba2rgb composite_on_white].
    rewrite IH; [done|lia|done].
Qed.

Local Close Scope Z_scope.

(** *** Adding an opaque alpha band *)

Lemma rgb_ind (P : list Z → Prop) :
  (∀ l, (length l < 3)%nat → P l) →
  (∀ r g b rest, P rest → P (r :: g :: b :: rest)) →
  ∀ l, P l.
Proof.
  intros Hshort Hpixel. fix IH 1.
  intros [|r [|g [|b rest]]]; try (apply Hshort; simpl; lia).
  apply Hpixel, IH.
Qed.

(** [rgb2rgba] keeps the three colours of each pixel and gives it the alpha
    255: four bytes for every three. *)
Lemma rgb2rgba_opaque n (buf : list Z) :
  length buf = (3 * n)%nat →
  length (rgb2rgba buf) = (4 * n)%nat ∧
  rgba2rgb (rgb2rgba buf) = buf ∧
  alphas (rgb2rgba buf) = replicate n 255%Z.
Proof.
  revert n. induction buf as [l Hl|r g b rest IH] using rgb_ind; intros n Hn.
  - destruct l as [|? [|? [|? ?]]]; simpl in *; try lia.
    destruct n; [done|lia].
  - destruct n as [|n]; simpl in Hn; [lia|].
    destruct (IH n) as (Hlen & Hrgb & Ha); [lia|].
    simpl. rewrite Hlen, Hrgb, Ha. repeat split. lia.
Qed.

(** ** What each step does *)

Ltac bind_inv H :=
  rewrite mbind_unfold in H;
  lazymatch type of H with
  | match ?c with _ => _ end = _ =>
      let a := fresh "a" in
      let e := fresh "e" in
      let w1 := fresh "w" in
      let Hc := fresh "Hc" in
      destruct c as [[a|e] w1] eqn:Hc
  end.

Lemma set_loaded_id img : loaded img = true → set_loaded img = img.
Proof. destruct img. simpl. by intros ->. Qed.

Lemma alloc_inv img w r w' :
  alloc img w = (r, w') →
  ∃ l, r = Return l ∧ heap w !! l = None ∧
       heap w' = <[l := img]> (heap w) ∧ fs w' = fs w ∧ trace w' = trace w.
Proof.
  unfold alloc. intros [= <- <-]. eexists. repeat split.
  apply not_elem_of_dom, is_fresh.
Qed.

Lemma deref_inv l w r w' :
  deref l w = (r, w') →
  w' = w ∧
  match r with
  | Return img => heap w !! l = Some img
  | Raise _ => heap w !! l = None
  end.
Proof.
  unfold deref. rewrite mbind_unfold. simpl.
  destruct (heap w !! l); intros [= <- <-]; done.
Qed.

Section Stages.
Variable E : Env.

Lemma Image_load_inv l w r w' :
  Image_load E l w = (r, w') →
  fs w' = fs w ∧ trace w' = trace w ∧
  match r with
  | Return _ =>
      ∃ img, heap w !! l = Some img ∧ heap w' = <[l := set_loaded img]> (heap w)
  | Raise _ => heap w' = heap w
  end.
Proof.
  unfold Image_load, deref. rewrite !mbind_unfold. simpl.
  destruct (heap w !! l) as [img|] eqn:Hl; simpl; [|by intros [= <- <-]].
  destruct (loaded img) eqn:Hload; simpl.
  { intros [= <- <-]. repeat split. exists img. split; [done|].
    rewrite set_loaded_id by done. by rewrite insert_id. }
  destruct (decode_error E img); simpl; intros [= <- <-]; [done|].
  repeat split. eauto.
Qed.

Lemma Image_new_inv m sz c w r w' :
  Image_new m sz c w = (r, w') →
  (0 ≤ sz.1)%Z → (0 ≤ sz.2)%Z →
  ∃ l, r = Return l ∧ heap w !! l = None ∧
       heap w' = <[l := {| mode := m; size := sz;
                           pixels := mjoin (replicate (Z.to_nat (sz.1 * sz.2)) c);
                           loaded := true |}]> (heap w).
Proof.
  unfold Image_new. intros H ? ?.
  rewrite bool_decide_eq_true_2 in H by done.
  apply alloc_inv in H as (l & ? & ? & ? & _). eauto.
Qed.

(** [Image.alpha_composite]: the result is a new object; the arguments,
    read in if need be, are otherwise as before. *)
Lemma Image_alpha_composite_inv a b w l w' :
  a ≠ b →
  Image_alpha_composite E a b w = (Return l, w') →
  ∃ ia ib,
    heap w !! a = Some ia ∧ heap w !! b = Some ib ∧
    mode ia = "RGBA" ∧ mode ib = "RGBA" ∧ size ia = size ib ∧
    l ≠ a ∧ l ≠ b ∧
    heap w' = <[l := {| mode := "RGBA"; size := size ia;
                        pixels := alpha_composite_buffer (pixels ia) (pixels ib);
                        loaded := true |}]>
                (<[b := set_loaded ib]> (<[a := set_loaded ia]> (heap w))).
Proof.
  intros Hab H. unfold Image_alpha_composite in H.
  bind_inv H; [|done]. apply Image_load_inv in Hc as (_ & _ & ia & Ha & Hw).
  bind_inv H; [|done]. apply Image_load_inv in Hc as (_ & _ & ib & Hb & Hw0).
  bind_inv H; [|done]. apply deref_inv in Hc as [-> Ha1].
  bind_inv H; [|done]. apply deref_inv in Hc as [-> Hb1].
  rewrite Hw in Hb. rewrite lookup_insert_ne in Hb by done.
  rewrite Hw0, Hw in Ha1, Hb1.
  rewrite lookup_insert_ne, lookup_insert_eq in Ha1 by done.
  rewrite lookup_insert_eq in Hb1. simplify_eq.
  simpl in H.
  destruct (String.eqb (mode ia) "RGBA") eqn:Hma; simpl in H; [|done].
  destruct (String.eqb (mode ia) (mode ib)) eqn:Hmb; simpl in H; [|done].
  destruct (bool_decide (size ia = size ib)) eqn:Hsz; simpl in H; [|done].
  apply String.eqb_eq in Hma, Hmb. apply bool_decide_eq_true in Hsz.
  apply alloc_inv in H as (l' & [= <-] & Hfresh & Hw' & _).
  rewrite Hw0, Hw in Hfresh, Hw'.
  exists ia, ib. repeat split; try done; try congruence.
  - intros ->. rewrite lookup_insert_ne, lookup_insert_eq in Hfresh by done. done.
  - intros ->. rewrite lookup_insert_eq in Hfresh. done.
Qed.

(** [img.convert(m)]: a new object, and the source is read in. *)
Lemma Image_convert_inv l m w l' w' :
  Image_convert E l m w = (Return l', w') →
  ∃ img buf,
    heap w !! l = Some img ∧
    convert_buffer E (mode img) m (pixels img) = Return buf ∧
    l' ≠ l ∧ heap w !! l' = None ∧
    heap w' = <[l' := {| mode := m; size := size img; pixels := buf;
                         loaded := true |}]>
                (<[l := set_loaded img]> (heap w)).
Proof.
  intros H. unfold Image_convert in H.
  bind_inv H; [|done]. apply Image_load_inv in Hc as (_ & _ & img & Hl & Hw).
  bind_inv H; [|done]. apply deref_inv in Hc as [-> Hl1].
  rewrite Hw, lookup_insert_eq in Hl1. simplify_eq. simpl in H.
  destruct (convert_buffer E (mode img) m (pixels img)) as [buf|] eqn:Hconv; [|done].
  apply alloc_inv in H as (l0 & [= <-] & Hfresh & Hw' & _).
  rewrite Hw in Hfresh, Hw'.
  exists img, buf. repeat split; try done.
  - intros ->. by rewrite lookup_insert_eq in Hfresh.
  - destruct (decide (l' = l)) as [->|]; [by rewrite lookup_insert_eq in Hfresh|].
    by rewrite lookup_insert_ne in Hfresh.
Qed.
End Stages.

Section Steps.
Variable E : Env.

(** Step 1 on an RGBA image: the result is a new RGB image, the input
    composited over white. *)
Lemma alpha_normalize_rgba l img w l1 w' :
  heap w !! l = Some img → mode img = "RGBA" → wf_rgba img →
  alpha_normalize E l w = (Return l1, w') →
  ∃ img1, heap w' !! l1 = Some img1 ∧ l1 ≠ l ∧
    mode img1 = "RGB" ∧ size img1 = size img ∧
    pixels img1 = composite_on_white (pixels img) ∧ loaded img1 = true.
Proof.
  intros Hl Hmode (Hw & Hh & Hlen & Hch) H. unfold alpha_normalize in H.
  bind_inv H; [|done]. apply deref_inv in Hc as [-> Hl']. simplify_eq.
  rewrite Hmode in H. simpl in H.
  bind_inv H; [|done].
  apply Image_new_inv in Hc as (bg & [= ->] & Hbg & Hw1); [|done..].
  assert (bg ≠ l) as Hne by congruence.
  bind_inv H; [|done].
  apply Image_alpha_composite_inv in Hc
    as (ia & ib & Ha & Hb & _ & _ & Hsz & Hcb & Hcl & Hw2); [|done].
  rewrite Hw1 in Ha, Hb. rewrite lookup_insert_eq in Ha.
  rewrite lookup_insert_ne in Hb by done. simplify_eq. simpl in *.
  apply Image_convert_inv in H as (ic & buf & Hc & Hconv & Hne1 & Hfr & Hw3).
  rewrite Hw2, lookup_insert_eq in Hc. simplify_eq. simpl in *.
  injection Hconv as <-.
  rewrite Hw2, !lookup_insert_ne in Hfr by congruence.
  eexists. split.
  { rewrite Hw3. apply lookup_insert_eq. }
  repeat split; try done.
  - intros ->. by rewrite lookup_insert_eq in Hfr.
  - simpl. apply composite_buffer_white; [exact Hlen|done].
Qed.

(** Step 1 on an image of any other mode does nothing. *)
Lemma alpha_normalize_other l img w :
  heap w !! l = Some img → mode img ≠ "RGBA" →
  alpha_normalize E l w = (Return l, w).
Proof.
  intros Hl Hmode. unfold alpha_normalize, deref.
  rewrite !mbind_unfold. simpl. rewrite Hl. simpl.
  apply String.eqb_neq in Hmode. by rewrite Hmode.
Qed.

(** Step 2 hands to the encoder the image it is given, read in. *)
Lemma encode_bmp_inv l w r w' :
  encode_bmp E l w = (r, w') →
  fs w' = fs w ∧
  ((∃ img data, r = Return data ∧ heap w !! l = Some img ∧
      trace w' = trace w ++ [EBmpSave (set_loaded img) (Return data)])
   ∨ (∃ img e, r = Raise (RuntimeError
          ("Failed to convert input image to BMP in memory: " +:+ str e)) ∧
        heap w !! l = Some img ∧
        trace w' = trace w ++ [EBmpSave (set_loaded img) (Raise e)])
   ∨ (∃ e, r = Raise (RuntimeError
          ("Failed to convert input image to BMP in memory: " +:+ str e)) ∧
        trace w' = trace w)).
Proof.
  unfold encode_bmp, try_except, Image_save_bmp. rewrite mbind_unfold.
  destruct (Image_load E l w) as [[[]|e] w1] eqn:Hload.
  - apply Image_load_inv in Hload as (Hfs & Htr & img & Hl & Hw).
    rewrite mbind_unfold. unfold deref. rewrite mbind_unfold. simpl.
    rewrite Hw, lookup_insert_eq. simpl.
    destruct (bool_decide (mode _ ∈ _));
      [destruct (bool_decide (_ ∧ _))|]; simpl; intros [= <- <-]; simpl;
      (split; [done|]); rewrite Htr.
    + left. eauto.
    + right. left. by exists img, (ValueError "cannot write empty image").
    + right. left. by exists img, (OSError ("cannot write mode " +:+ mode img +:+ " as BMP")).
  - apply Image_load_inv in Hload as (Hfs & Htr & _).
    simpl. intros [= <- <-]. split; [done|]. right. right. by exists e.
Qed.

(** Step 7 *)
Lemma decode_png_inv png w r w' :
  decode_png E png w = (r, w') →
  fs w' = fs w ∧
  ∃ res, trace w' = trace w ++ [EImageOpen png res] ∧
    match r with
    | Return l =>
        ∃ l0 img0 buf, res = Return l0 ∧
          heap w' !! l0 = Some (set_loaded img0) ∧
          heap w' !! l = Some {| mode := "RGBA"; size := size img0;
                                 pixels := buf; loaded := true |}
    | Raise e =>
        ∃ e0, e = RuntimeError
                ("Failed to open generated PNG as PIL Image: " +:+ str e0)
    end.
Proof.
  unfold decode_png, try_except, Image_open. rewrite mbind_unfold.
  destruct (image_open E png) as [img|e0] eqn:Hopen.
  - rewrite !mbind_unfold.
    destruct (alloc _ w) as [r0 w1] eqn:Halloc.
    apply alloc_inv in Halloc as (l0 & -> & Hfresh & Hw1 & Hfs1 & Htr1).
    simpl. rewrite mbind_unfold.
    match goal with
    | |- context [Image_load E l0 ?w] =>
        destruct (Image_load E l0 w) as [[[]|e] w2] eqn:Hload
    end.
    + apply Image_load_inv in Hload as (Hfs2 & Htr2 & im & Hl0 & Hw2).
      simpl in *. rewrite Hw1, lookup_insert_eq in Hl0. simplify_eq.
      destruct (Image_convert E l0 "RGBA" w2) as [[l|e] w3] eqn:Hconv.
      * pose proof (Image_convert_same_files E l0 "RGBA" w2) as Hsf.
        rewrite Hconv in Hsf. destruct Hsf as [Hfs3 Htr3]. simpl in *.
        apply Image_convert_inv in Hconv
          as (ic & buf & Hc & _ & Hne & _ & Hw3).
        rewrite Hw2, lookup_insert_eq in Hc. simplify_eq.
        intros [= <- <-]. split; [congruence|].
        eexists. split; [by rewrite Htr3, Htr2, Htr1|].
        eexists l0, (set_loaded _), buf. split; [done|].
        rewrite Hw3. rewrite lookup_insert_ne by done.
        rewrite lookup_insert_eq, lookup_insert_eq. done.
      * pose proof (Image_convert_same_files E l0 "RGBA" w2) as Hsf.
        rewrite Hconv in Hsf. destruct Hsf as [Hfs3 Htr3]. simpl in *.
        intros [= <- <-]. split; [congruence|].
        eexists. split; [by rewrite Htr3, Htr2, Htr1|]. eauto.
    + apply Image_load_inv in Hload as (Hfs2 & Htr2 & _). simpl in *.
      intros [= <- <-]. split; [congruence|].
      eexists. split; [by rewrite Htr2, Htr1|]. eauto.
  - simpl. intros [= <- <-]. split; [done|].
    eexists. split; [done|]. eauto.
Qed.
(** Step 7 when it returns: the image returned is the conversion to RGBA
    of the image opened on the PNG, read in. *)
Lemma decode_png_returns png w l w' :
  decode_png E png w = (Return l, w') →
  ∃ l0 opened,
    image_open E png = Return opened ∧
    trace w' = trace w ++ [EImageOpen png (Return l0)] ∧
    heap w' !! l0 = Some (set_loaded opened) ∧
    ∃ img, heap w' !! l = Some img ∧
      mode img = "RGBA" ∧ size img = size opened ∧ loaded img = true ∧
      convert_buffer E (mode opened) "RGBA" (pixels opened) = Return (pixels img).
Proof.
  unfold decode_png, try_except, Image_open. rewrite mbind_unfold.
  destruct (image_open E png) as [opened|e0] eqn:Hopen; [|done].
  rewrite !mbind_unfold.
  destruct (alloc _ w) as [r0 w1] eqn:Halloc.
  apply alloc_inv in Halloc as (l0 & -> & Hfresh & Hw1 & Hfs1 & Htr1).
  simpl. rewrite mbind_unfold.
  match goal with
  | |- context [Image_load E l0 ?w] =>
      destruct (Image_load E l0 w) as [[[]|e] w2] eqn:Hload; [|done]
  end.
  apply Image_load_inv in Hload as (Hfs2 & Htr2 & im & Hl0 & Hw2).
  simpl in *. rewrite Hw1, lookup_insert_eq in Hl0. simplify_eq.
  destruct (Image_convert E l0 "RGBA" w2) as [[l1|e] w3] eqn:Hconv; [|done].
  pose proof (Image_convert_same_files E l0 "RGBA" w2) as Hsf.
  rewrite Hconv in Hsf. destruct Hsf as [Hfs3 Htr3]. simpl in *.
  apply Image_convert_inv in Hconv as (ic & buf & Hc & Hbuf & Hne & _ & Hw3).
  rewrite Hw2, lookup_insert_eq in Hc. simplify_eq.
  intros [= <- <-].
  exists l0, opened. split; [done|]. split; [by rewrite Htr3, Htr2, Htr1|].
  rewrite Hw3. split.
  { rewrite lookup_insert_ne by done. by rewrite !lookup_insert_eq. }
  eexists. split; [apply lookup_insert_eq|]. by repeat split.
Qed.
End Steps.

(** ** The [finally] block *)

Section Cleanup.
Variable E : Env.

Lemma remove_quietly_inv p w :
  ∃ f evs,
    remove_quietly E p w = (Return tt, {| fs := f; heap := heap w; trace := trace w ++ evs |}) ∧
    Forall is_remove evs ∧
    ((f = delete p (fs w) ∧ failed_removals evs = []) ∨
     (f = fs w ∧ failed_removals evs = [p])).
Proof.
  unfold remove_quietly, os_path_exists, os_remove, pass_OSError.
  rewrite !mbind_unfold. simpl.
  destruct (fs w !! p) as [data|] eqn:Hp.
  - rewrite bool_decide_eq_true_2 by eauto.
    rewrite !mbind_unfold. simpl. rewrite Hp.
    destruct (remove_error E p) as [msg|]; simpl.
    + exists (fs w), [ERemove p (Some msg)]. split; [done|].
      split; [by repeat constructor|]. by right.
    + exists (delete p (fs w)), [ERemove p None]. split; [done|].
      split; [by repeat constructor|]. by left.
  - rewrite bool_decide_eq_false_2 by (intros [? ?]; congruence).
    simpl. exists (fs w), []. rewrite app_nil_r. split; [by destruct w|].
    split; [constructor|]. left. split; [|done].
    symmetry. by apply delete_id.
Qed.

Lemma cleanup_unfold bmp svgo :
  cleanup E bmp svgo =
  (remove_quietly E bmp;;
   match svgo with
   | Some p => if truthy p then remove_quietly E p else mret tt
   | None => mret tt
   end).
Proof. unfold cleanup, remove_quietly. by destruct svgo. Qed.

Lemma failed_removals_app t1 t2 :
  failed_removals (t1 ++ t2) = failed_removals t1 ++ failed_removals t2.
Proof. apply omap_app. Qed.

(** The [finally] block never raises, leaves the images alone, and when
    it is over each of the two files is gone unless its removal failed. *)
Lemma cleanup_inv bmp svgo w r w' :
  cleanup E bmp svgo w = (r, w') →
  r = Return tt ∧ heap w' = heap w ∧
  ∃ evs, trace w' = trace w ++ evs ∧ Forall is_remove evs ∧
    (fs w' !! bmp = None ∨ bmp ∈ failed_removals evs) ∧
    (∀ q, svgo = Some q → q ≠ "" → fs w' !! q = None ∨ q ∈ failed_removals evs).
Proof.
  rewrite cleanup_unfold, mbind_unfold.
  destruct (remove_quietly_inv bmp w) as (f1 & evs1 & -> & Hrm1 & Hf1).
  assert (f1 !! bmp = None ∨ bmp ∈ failed_removals evs1) as Hbmp.
  { destruct Hf1 as [[-> _]|[_ ->]];
      [left; apply lookup_delete_eq|right; by apply list_elem_of_singleton]. }
  destruct svgo as [q|]; [destruct (truthy q) eqn:Hq|].
  - match goal with
    | |- remove_quietly E q ?w1 = _ → _ =>
        destruct (remove_quietly_inv q w1) as (f2 & evs2 & -> & Hrm2 & Hf2)
    end.
    simpl in *. intros [= <- <-]. simpl. repeat split.
    exists (evs1 ++ evs2). rewrite app_assoc. split; [done|].
    split; [by apply Forall_app|]. rewrite failed_removals_app. split.
    + destruct Hf2 as [[-> _]|[-> _]].
      * destruct Hbmp as [Hb|Hb]; [left|right; apply elem_of_app; by left].
        destruct (decide (q = bmp)) as [->|]; [apply lookup_delete_eq|].
        by rewrite lookup_delete_ne.
      * destruct Hbmp as [Hb|Hb]; [by left|right; apply elem_of_app; by left].
    + intros ? [= <-] _.
      destruct Hf2 as [[-> _]|[_ ->]]; [left; apply lookup_delete_eq|].
      right. apply elem_of_app. right. by apply list_elem_of_singleton.
  - simpl. intros [= <- <-]. simpl. repeat split.
    exists evs1. repeat split; try done.
    intros ? [= <-] Hne. unfold truthy in Hq.
    apply negb_false_iff, String.eqb_eq in Hq. done.
  - simpl. intros [= <- <-]. simpl. repeat split.
    exists evs1. repeat split; done.
Qed.
End Cleanup.

(** ** The runs of the pipeline *)

Lemma mark_used (P : Prop) : P → used P.
Proof. done. Qed.

(** [crunch H] follows a run [H : upscale_with_vectorization ... = (r, w')]
    along its branches; the four steps with a lemma of their own stay
    folded. *)
Ltac crunch_unfold H :=
  cbv beta iota zeta delta
    [upscale_with_vectorization shutil_which mkstemp file_write try_finally
     guarded trace_and_render os_close subprocess_run_capture captured_text
     read_file
     cairosvg_svg2png try_except raise mbind mret M_MBind M_MRet M_bind M_ret
     log get_fs set_fs initial_world fs heap trace] in H.

Ltac crunch_step H :=
  match type of H with
  | context [match ?x with _ => _ end] =>
      lazymatch x with
      | context [match _ with _ => _ end] => fail
      | _ => destruct x eqn:?; cbv beta iota zeta delta [fs heap trace] in H
      end
  end.

Ltac crunch H := crunch_unfold H; repeat crunch_step H; simplify_eq.

Lemma omap_removes {A} (f : Event → option A) evs :
  Forall is_remove evs → (∀ p r, f (ERemove p r) = None) → omap f evs = [].
Proof.
  intros Hall Hf. induction Hall as [|ev evs Hev _ IH]; [done|].
  destruct ev; try done. simpl. by rewrite Hf.
Qed.

Ltac stage_facts :=
  repeat match goal with
  | H : alpha_normalize ?E ?l ?w = (_, ?w') |- _ =>
      let Hf := fresh "Hnorm" in
      pose proof (alpha_normalize_same_files E l w) as Hf;
      rewrite H in Hf; destruct Hf as [? ?];
      apply mark_used in H
  | H : encode_bmp ?E ?l ?w = (_, ?w') |- _ =>
      let Hf := fresh "Henc" in
      pose proof (encode_bmp_inv E l w _ _ H) as [? Hf];
      destruct Hf as [(?&?&?&?&?)|[(?&?&?&?&?)|(?&?&?)]];
      apply mark_used in H
  | H : decode_png ?E ?png ?w = (_, ?w') |- _ =>
      let Hf := fresh "Hdec" in
      pose proof (decode_png_inv E png w _ _ H) as (? & ? & ? & Hf);
      apply mark_used in H
  | H : cleanup ?E ?bmp ?svg ?w = (_, ?w') |- _ =>
      let Hf := fresh "Hclean" in
      pose proof (cleanup_inv E bmp svg w _ _ H) as (? & ? & ? & ? & ? & Hf);
      apply mark_used in H
  end.

(** Brings the trace of the final world into the form of a list of the
    events of the run. *)
Ltac flatten_trace :=
  simpl in *; simplify_eq;
  repeat match goal with
  | H : trace ?w = _ |- _ => is_var w; try rewrite H in *; clear H
  end.

Ltac project_trace :=
  repeat match goal with
  | H : Forall is_remove ?x |- _ =>
      progress rewrite ?(omap_removes _ x H) in * by done
  end.

Ltac run_cases H := crunch H; stage_facts; flatten_trace.


(** ** The claims about [upscale_with_vectorization] *)

Lemma append_nonempty (a b : string) c : a +:+ String c b ≠ "".
Proof. by destruct a. Qed.


Ltac project P :=
  unfold P in *; rewrite ?omap_app in *; simpl in *; project_trace;
  rewrite ?app_nil_r in *; simpl in *.

Ltac in_list :=
  repeat first [ apply list_elem_of_here | apply list_elem_of_further ].

Ltac no_member :=
  match goal with
  | H : _ ∈ [] |- _ => by apply elem_of_nil in H
  end.

Ltac one_member :=
  match goal with
  | H : _ ∈ [_] |- _ => apply list_elem_of_singleton in H; subst
  end.

(** The whole call leaves the images it was given as they are. *)
Lemma respects_try_finally (R : relation World) `{!PreOrder R} {A V}
    (body : World → outcome A * V * World) (fin : V → M unit) :
  (∀ w, R w (body w).2) → (∀ v, respects R (fin v)) →
  respects R (try_finally body fin).
Proof.
  intros Hbody Hfin w. unfold try_finally.
  specialize (Hbody w). destruct (body w) as [[r v] w1]. simpl in Hbody.
  specialize (Hfin v w1). destruct (fin v w1) as [[[]|e] w2]; simpl in *;
    by etrans.
Qed.

Lemma guarded_keeps E bmp args scale ow oh w :
  keeps w (guarded E bmp args scale ow oh w).2.
Proof.
  unfold guarded.
  pose proof (mkstemp_keeps E ".svg" w) as Hmk.
  destruct (mkstemp E ".svg" w) as [[p|e] w1]; simpl in Hmk; [|done].
  pose proof (trace_and_render_keeps E bmp p args scale ow oh w1) as Htr.
  destruct (trace_and_render _ _ _ _ _ _ _ w1) as [r2 w2]; simpl in *.
  by etrans.
Qed.

Lemma upscale_with_vectorization_keeps E l args scale ow oh :
  respects keeps (upscale_with_vectorization E l args scale ow oh).
Proof.
  unfold upscale_with_vectorization, shutil_which. cbv zeta. frames.
  - apply alpha_normalize_keeps.
  - apply encode_bmp_keeps.
  - apply mkstemp_keeps.
  - apply file_write_keeps.
  - apply respects_try_finally; [tc_solve|apply guarded_keeps|].
    intros v. apply cleanup_keeps.
Qed.

Section Claims.
Variable E : Env.
Variables (pil_image : loc) (potrace_args : option (list string))
  (scale : option float) (output_width output_height : option Z).
Variables (files : gmap string bytes) (images : gmap loc PILImage).

(** In each theorem, [r] is what the call gives back and [w'] the world it
    leaves, for a call in a world with the files [files] and the image
    objects [images], and nothing done yet. *)

(** C8 (as the code has it): every rasterize request carries the scale,
    1.0 when the caller gave none, together with the output width and the
    output height exactly as the caller gave them. *)
Theorem rasterize_request_carries_all_three r w' req :
  run_upscale E pil_image potrace_args scale output_width output_height
    files images = (r, w') →
  req ∈ requests (trace w') →
  req = (default 1.0%float scale, output_width, output_height).
Proof.
  unfold run_upscale. intros H Hreq. run_cases H.
  all: project requests; try no_member; try (one_member; done).
Qed.

(** C7: with extra arguments, the command line is the tool name, the
    extra arguments in their order, the input file, [-s], [-o] and the
    output file; the two files are the temporary files of the run. *)
Theorem command_line_with_extra_arguments r w' args command :
  run_upscale E pil_image potrace_args scale output_width output_height
    files images = (r, w') →
  potrace_args = Some args → args ≠ [] →
  command ∈ commands (trace w') →
  ∃ bmp_file_path svg_file_path,
    created (trace w') = [bmp_file_path; svg_file_path] ∧
    command = ["potrace"] ++ args ++ [bmp_file_path; "-s"; "-o"; svg_file_path].
Proof.
  unfold run_upscale. intros H -> Hargs Hcmd. run_cases H.
  all: project commands; try no_member.
  all: one_member; project created.
  all: eexists _, _; split; [reflexivity|].
  all: destruct args; [done|reflexivity].
Qed.


(** C3: when [shutil.which] finds no potrace, the pipeline raises the
    missing-tool error at once: nothing but the lookup has happened, no
    file was created and no image object either. *)
Theorem missing_tool_fails_before_any_work r w' :
  run_upscale E pil_image potrace_args scale output_width output_height
    files images = (r, w') →
  which E "potrace" = None →
  r = Raise ToolNotFound ∧
  trace w' = [EWhich "potrace" None] ∧
  created (trace w') = [] ∧
  fs w' = files ∧ heap w' = images.
Proof.
  unfold run_upscale, upscale_with_vectorization, shutil_which.
  cbv beta zeta. rewrite !mbind_unfold. simpl. intros H Hwhich.
  rewrite Hwhich in H. simpl in H. injection H as <- <-. by repeat split.
Qed.

(** C6: an image the pipeline returns is an RGBA image whose pixel data
    is in memory, and it is the conversion to RGBA of the image opened on
    the very PNG the renderer gave, which has been read in too.  A PNG that
    opens as RGBA gives its own pixels; one that opens as RGB gives four
    bytes a pixel for its three, the colours kept and every alpha 255.
    All this whatever the input image was. *)
Theorem returned_image_is_loaded_rgba w' l :
  run_upscale E pil_image potrace_args scale output_width output_height
    files images = (Return l, w') →
  ∃ img svg_data png l0 opened,
    heap w' !! l = Some img ∧
    mode img = "RGBA" ∧ loaded img = true ∧
    ESvg2Png svg_data (default 1.0%float scale) output_width output_height
      (Return png) ∈ trace w' ∧
    EImageOpen png (Return l0) ∈ trace w' ∧
    image_open E png = Return opened ∧
    heap w' !! l0 = Some (set_loaded opened) ∧
    size img = size opened ∧
    convert_buffer E (mode opened) "RGBA" (pixels opened) = Return (pixels img) ∧
    (mode opened = "RGBA" → pixels img = pixels opened) ∧
    (mode opened = "RGB" → ∀ n, length (pixels opened) = (3 * n)%nat →
       length (pixels img) = (4 * n)%nat ∧
       rgba2rgb (pixels img) = pixels opened ∧
       alphas (pixels img) = replicate n 255%Z).
Proof.
  unfold run_upscale. intros H. crunch H.
  all: match goal with
       | Hd : decode_png E ?png ?w = (Return _, _) |- _ =>
           apply decode_png_returns in Hd
             as (l0 & opened & Hopen & Htr & Hl0 & img & Hl & Hm & Hs & Hld & Hbuf);
           exists img; eexists _, png, l0, opened
       end.
  all: stage_facts; flatten_trace.
  match goal with
  | Hh : heap w' = _ |- _ => rewrite Hh
  end.
  repeat (split; [done|]). split; [in_list|]. split; [in_list|].
  repeat (split; [done|]). split.
  - intros Hrgba. rewrite Hrgba in Hbuf. unfold convert_buffer in Hbuf.
    simpl in Hbuf. by simplify_eq.
  - intros Hrgb n Hn. rewrite Hrgb in Hbuf. unfold convert_buffer in Hbuf.
    simpl in Hbuf. simplify_eq. rewrite <- Hbuf. by apply rgb2rgba_opaque.
Qed.

(** C10: whatever the outcome, the caller's image object is still there
    after the call, with the mode, the size and the pixels it had. *)
Theorem caller_image_is_kept r w' img :
  run_upscale E pil_image potrace_args scale output_width output_height
    files images = (r, w') →
  images !! pil_image = Some img →
  ∃ img', heap w' !! pil_image = Some img' ∧ same_picture img img'.
Proof.
  unfold run_upscale. intros H Himg.
  pose proof (upscale_with_vectorization_keeps E pil_image potrace_args scale
                output_width output_height (initial_world files images)) as Hk.
  rewrite H in Hk. by apply Hk.
Qed.

(** C1 (as the code has it): once the bitmap has been written, every
    temporary file the run created is gone when the call is over, whether
    it returned or raised, unless removing that file failed. *)
Theorem temp_files_removed_unless_removal_fails r w' p :
  run_upscale E pil_image potrace_args scale output_width output_height
    files images = (r, w') →
  p ∈ created (trace w') →
  failed_writes (trace w') = [] →
  p ∉ failed_removals (trace w') →
  fs w' !! p = None.
Proof.
  unfold run_upscale. intros H Hp Hwr Hrm. run_cases H.
  all: project created; try no_member.
  all: project failed_writes; try done.
  all: project failed_removals.
  all: repeat match goal with
       | H : _ ∧ _ |- _ => destruct H
       end.
  all: repeat match goal with
       | H : _ ∈ _ :: _ |- _ => apply elem_of_cons in H as [->|H]
       | H : _ ∈ [] |- _ => by apply elem_of_nil in H
       end.
  all: try match goal with
       | H : _ ∨ _ |- _ => by destruct H
       end.
  all: match goal with
       | H : ∀ q, Some ?p = Some q → _ |- _ =>
           destruct (H p eq_refl (append_nonempty _ _ _)); done
       end.
Qed.

(** C5 (as the code has it): the image handed to the BMP encoder is, for
    an input of mode RGBA, an RGB image of the same size whose pixels are
    the input's composited over white; an input of any other mode, with
    an alpha band or without, is handed over as it is. *)
Theorem rgba_input_is_composited_over_white r w' img enc :
  run_upscale E pil_image potrace_args scale output_width output_height
    files images = (r, w') →
  images !! pil_image = Some img →
  enc ∈ encoded (trace w') →
  (mode img = "RGBA" → wf_rgba img →
     mode enc = "RGB" ∧ size enc = size img ∧
     pixels enc = composite_on_white (pixels img)) ∧
  (mode img ≠ "RGBA" → same_picture img enc).
Proof.
  unfold run_upscale. intros H Himg Henc. run_cases H.
  all: project encoded; try no_member.
  all: one_member.
  all: unfold used in *.
  all: match goal with
       | Hn : alpha_normalize _ _ ?w0 = (Return ?a, ?w), Hx : heap ?w !! ?a = Some ?x |- _ =>
           split;
           [ intros Hmode Hwf;
             destruct (alpha_normalize_rgba E pil_image img w0 a w Himg Hmode Hwf Hn)
               as (img1 & Hl1 & _ & ? & ? & ? & _);
             rewrite Hl1 in Hx; injection Hx as <-; done
           | intros Hmode;
             pose proof (alpha_normalize_other E pil_image img w0 Himg Hmode) as Hsame;
             rewrite Hsame in Hn; injection Hn as <- Hw;
             rewrite <- Hw in Hx; simpl in Hx; rewrite Himg in Hx;
             injection Hx as <-; done ]
       end.
Qed.
End Claims.

(** ** Failures of the cleanup *)

Lemma agree_bind {A} (c : M A) (k1 k2 : A → M loc) w :
  (∀ a w1, agree (k1 a w1) (k2 a w1)) →
  agree ((c ≫= k1) w) ((c ≫= k2) w).
Proof.
  intros Hk. rewrite !mbind_unfold.
  destruct (c w) as [[a|e] w1]; [apply Hk|done].
Qed.

Section CleanupFailures.
Variable E : Env.
Variable f : string → option string.

Lemma guarded_with_remove_error :
  guarded (with_remove_error E f) = guarded E.
Proof. reflexivity. Qed.

(** C9: whether the removal of the temporary files fails or not makes no
    difference to what the call gives back: the same image object, with
    the same content, or the same error of the same step. *)
Theorem cleanup_failure_never_changes_outcome pil_image potrace_args scale
    output_width output_height files images :
  agree
    (run_upscale (with_remove_error E f) pil_image potrace_args scale
       output_width output_height files images)
    (run_upscale E pil_image potrace_args scale
       output_width output_height files images).
Proof.
  unfold run_upscale, upscale_with_vectorization. cbv zeta.
  change (shutil_which (with_remove_error E f)) with (shutil_which E).
  change (alpha_normalize (with_remove_error E f)) with (alpha_normalize E).
  change (encode_bmp (with_remove_error E f)) with (encode_bmp E).
  change (mkstemp (with_remove_error E f)) with (mkstemp E).
  change (file_write (with_remove_error E f)) with (file_write E).
  rewrite guarded_with_remove_error.
  apply agree_bind. intros tool w1.
  destruct (negb (truthy_opt tool)); [done|].
  apply agree_bind. intros norm w2.
  apply agree_bind. intros bmp_data w3.
  apply agree_bind. intros bmp_file_path w4.
  apply agree_bind. intros _ w5.
  unfold try_finally.
  destruct (guarded E bmp_file_path potrace_args (default 1.0%float scale)
              output_width output_height w5) as [[r v] w6].
  destruct (cleanup (with_remove_error E f) bmp_file_path v w6)
    as [r1 w7] eqn:H1.
  destruct (cleanup E bmp_file_path v w6) as [r2 w8] eqn:H2.
  apply cleanup_inv in H1 as (-> & Hh1 & _).
  apply cleanup_inv in H2 as (-> & Hh2 & _).
  split; simpl; congruence.
Qed.
End CleanupFailures.
(** ** The claims on sample runs *)

Lemma temp_files_removed_unless_removal_fails_witness :
  "/tmp/tmpa1b2c3.bmp" ∈ created (trace plain_run.2) ∧
  failed_writes (trace plain_run.2) = [] ∧
  ("/tmp/tmpa1b2c3.bmp" ∉ failed_removals (trace plain_run.2)) ∧
  fs plain_run.2 !! "/tmp/tmpa1b2c3.bmp" = None.
Proof.
  assert (run_upscale sample_env 0 None None None None ∅ {[0%nat := rgb_image]}
          = (plain_run.1, plain_run.2)) as Hrun by (vm_compute; reflexivity).
  assert ("/tmp/tmpa1b2c3.bmp" ∈ created (trace plain_run.2)) as Hp
    by (vm_compute; apply list_elem_of_here).
  assert (failed_writes (trace plain_run.2) = []) as Hwr
    by (vm_compute; reflexivity).
  assert (failed_removals (trace plain_run.2) = []) as Hfr
    by (vm_compute; reflexivity).
  assert ("/tmp/tmpa1b2c3.bmp" ∉ failed_removals (trace plain_run.2)) as Hrm
    by (rewrite Hfr; apply not_elem_of_nil).
  repeat (split; [assumption|]).
  exact (temp_files_removed_unless_removal_fails _ _ _ _ _ _ _ _ _ _ _
           Hrun Hp Hwr Hrm).
Defined.

(** C1 (as the specification has it) fails when the temporary files
    cannot be removed: [os.remove] raises, the error is passed over, and
    the bitmap file is still there when the call is over. *)
Lemma removal_failure_leaves_temp_file :
  ¬ no_temp_file_left locked_files_env 0 None None None None ∅
      {[0%nat := rgb_image]}.
Proof.
  unfold no_temp_file_left. cbv zeta. intros H.
  specialize (H "/tmp/tmpa1b2c3.bmp").
  assert ("/tmp/tmpa1b2c3.bmp" ∈ created (trace
            (run_upscale locked_files_env 0 None None None None ∅
               {[0%nat := rgb_image]}).2)) as Hp
    by (vm_compute; apply list_elem_of_here).
  specialize (H Hp). vm_compute in H. discriminate H.
Qed.

Lemma missing_tool_fails_before_any_work_witness :
  which no_potrace_env "potrace" = None ∧
  no_potrace_run.1 = Raise ToolNotFound ∧
  trace no_potrace_run.2 = [EWhich "potrace" None] ∧
  created (trace no_potrace_run.2) = [] ∧
  fs no_potrace_run.2 = ∅ ∧ heap no_potrace_run.2 = {[0%nat := rgb_image]}.
Proof.
  assert (run_upscale no_potrace_env 0 None None None None ∅ {[0%nat := rgb_image]}
          = (no_potrace_run.1, no_potrace_run.2)) as Hrun
    by (vm_compute; reflexivity).
  assert (which no_potrace_env "potrace" = None) as Hwhich by reflexivity.
  split; [exact Hwhich|].
  exact (missing_tool_fails_before_any_work _ _ _ _ _ _ _ _ _ _ Hrun Hwhich).
Defined.



Lemma rgba_input_is_composited_over_white_witness :
  ({[0%nat := rgba_image]} : gmap loc PILImage) !! 0%nat = Some rgba_image ∧
  {| mode := "RGB"; size := (2, 1)%Z;
     pixels := [255; 255; 255; 132; 137; 142]%Z; loaded := true |}
    ∈ encoded (trace rgba_run.2) ∧
  wf_rgba rgba_image ∧
  [255; 255; 255; 132; 137; 142]%Z = composite_on_white (pixels rgba_image).
Proof.
  assert (run_upscale sample_env 0 None None None None ∅ {[0%nat := rgba_image]}
          = (rgba_run.1, rgba_run.2)) as Hrun by (vm_compute; reflexivity).
  assert (({[0%nat := rgba_image]} : gmap loc PILImage) !! 0%nat
          = Some rgba_image) as Himg by (vm_compute; reflexivity).
  assert ({| mode := "RGB"; size := (2, 1)%Z;
             pixels := [255; 255; 255; 132; 137; 142]%Z; loaded := true |}
            ∈ encoded (trace rgba_run.2)) as Henc
    by (vm_compute; apply list_elem_of_here).
  assert (wf_rgba rgba_image) as Hwf.
  { repeat split; simpl; try lia.
    repeat (constructor; [unfold channel; lia|]). constructor. }
  repeat (split; [assumption|]).
  destruct (rgba_input_is_composited_over_white _ _ _ _ _ _ _ _ _ _ _ _
              Hrun Himg Henc) as [Hrgba _].
  destruct (Hrgba eq_refl Hwf) as (_ & _ & Hpix). exact Hpix.
Defined.

(** C5 (as the specification has it) fails for an image with an alpha
    band whose mode is not RGBA: the grey picture with alpha is handed to
    the BMP encoder as it is. *)
Lemma grey_alpha_image_reaches_encoder :
  ¬ alpha_never_encoded sample_env 0 None None None None ∅
      {[0%nat := la_image]}.
Proof.
  unfold alpha_never_encoded. cbv zeta. intros H.
  assert (({[0%nat := la_image]} : gmap loc PILImage) !! 0%nat = Some la_image)
    as Himg by (vm_compute; reflexivity).
  assert (la_image ∈ encoded (trace
            (run_upscale sample_env 0 None None None None ∅
               {[0%nat := la_image]}).2)) as Henc
    by (vm_compute; apply list_elem_of_here).
  specialize (H la_image Himg eq_refl la_image Henc).
  vm_compute in H. discriminate H.
Qed.

Lemma returned_image_is_loaded_rgba_witness :
  plain_run.1 = Return 2%nat ∧
  ∃ img svg_data png l0 opened,
    heap plain_run.2 !! 2%nat = Some img ∧
    mode img = "RGBA" ∧ loaded img = true ∧
    ESvg2Png svg_data (default 1.0%float None) None None (Return png)
      ∈ trace plain_run.2 ∧
    EImageOpen png (Return l0) ∈ trace plain_run.2 ∧
    image_open sample_env png = Return opened ∧
    heap plain_run.2 !! l0 = Some (set_loaded opened) ∧
    size img = size opened ∧
    convert_buffer sample_env (mode opened) "RGBA" (pixels opened)
      = Return (pixels img) ∧
    (mode opened = "RGBA" → pixels img = pixels opened) ∧
    (mode opened = "RGB" → ∀ n, length (pixels opened) = (3 * n)%nat →
       length (pixels img) = (4 * n)%nat ∧
       rgba2rgb (pixels img) = pixels opened ∧
       alphas (pixels img) = replicate n 255%Z).
Proof.
  assert (run_upscale sample_env 0 None None None None ∅ {[0%nat := rgb_image]}
          = (Return 2%nat, plain_run.2)) as Hrun by (vm_compute; reflexivity).
  split; [vm_compute; reflexivity|].
  exact (returned_image_is_loaded_rgba _ _ _ _ _ _ _ _ _ _ Hrun).
Defined.

Lemma command_line_with_extra_arguments_witness :
  ["potrace"; "-t"; "5"; "/tmp/tmpa1b2c3.bmp"; "-s"; "-o"; "/tmp/tmpa1b2c3.svg"]
    ∈ commands (trace tuned_run.2) ∧
  ∃ bmp_file_path svg_file_path,
    created (trace tuned_run.2) = [bmp_file_path; svg_file_path] ∧
    ["potrace"; "-t"; "5"; "/tmp/tmpa1b2c3.bmp"; "-s"; "-o"; "/tmp/tmpa1b2c3.svg"]
    = ["potrace"] ++ ["-t"; "5"] ++ [bmp_file_path; "-s"; "-o"; svg_file_path].
Proof.
  assert (run_upscale sample_env 0 (Some ["-t"; "5"]) None None None ∅
            {[0%nat := rgb_image]}
          = (tuned_run.1, tuned_run.2)) as Hrun by (vm_compute; reflexivity).
  assert (["potrace"; "-t"; "5"; "/tmp/tmpa1b2c3.bmp"; "-s"; "-o";
           "/tmp/tmpa1b2c3.svg"] ∈ commands (trace tuned_run.2)) as Hcmd
    by (vm_compute; apply list_elem_of_here).
  split; [exact Hcmd|].
  apply (command_line_with_extra_arguments _ _ _ _ _ _ _ _ _ _ _ _
           Hrun eq_refl); [discriminate|exact Hcmd].
Defined.

Lemma rasterize_request_carries_all_three_witness :
  (1.0%float, Some 512%Z, Some 512%Z) ∈ requests (trace sized_run.2) ∧
  (1.0%float, Some 512%Z, Some 512%Z)
    = (default 1.0%float None, Some 512%Z, Some 512%Z).
Proof.
  assert (run_upscale sample_env 0 None None (Some 512%Z) (Some 512%Z) ∅
            {[0%nat := rgb_image]}
          = (sized_run.1, sized_run.2)) as Hrun by (vm_compute; reflexivity).
  assert ((1.0%float, Some 512%Z, Some 512%Z) ∈ requests (trace sized_run.2))
    as Hreq by (vm_compute; apply list_elem_of_here).
  split; [exact Hreq|].
  exact (rasterize_request_carries_all_three _ _ _ _ _ _ _ _ _ _ _ Hrun Hreq).
Defined.

(** C8 (as the specification has it) fails when the caller gives an output
    size: the request carries the size and the scale 1.0 with it. *)
Lemma explicit_size_is_sent_with_scale :
  ¬ one_sizing_mode_each sample_env 0 None None (Some 512%Z) (Some 512%Z) ∅
      {[0%nat := rgb_image]}.
Proof.
  unfold one_sizing_mode_each. cbv zeta. intros H.
  assert ((1.0%float, Some 512%Z, Some 512%Z) ∈ requests (trace
            (run_upscale sample_env 0 None None (Some 512%Z) (Some 512%Z) ∅
               {[0%nat := rgb_image]}).2)) as Hreq
    by (vm_compute; apply list_elem_of_here).
  destruct (H _ Hreq) as [Hw _]. discriminate Hw.
Qed.

Lemma caller_image_is_kept_witness :
  ({[0%nat := rgba_image]} : gmap loc PILImage) !! 0%nat = Some rgba_image ∧
  ∃ img', heap rgba_run.2 !! 0%nat = Some img' ∧ same_picture rgba_image img'.
Proof.
  assert (run_upscale sample_env 0 None None None None ∅ {[0%nat := rgba_image]}
          = (rgba_run.1, rgba_run.2)) as Hrun by (vm_compute; reflexivity).
  assert (({[0%nat := rgba_image]} : gmap loc PILImage) !! 0%nat
          = Some rgba_image) as Himg by (vm_compute; reflexivity).
  split; [exact Himg|].
  exact (caller_image_is_kept _ _ _ _ _ _ _ _ _ _ _ Hrun Himg).
Defined.

Section ProcessWrapFacts.
Variable popen_error : option exn.
Variable script : list (bool * string).
Variable status : Z.
Variable capacity : nat.

Lemma upd_same {A} b (v : A) f : upd b v f b = v.
Proof. unfold upd. by rewrite Bool.eqb_reflx. Qed.

Lemma upd_other {A} b b' (v : A) f : b ≠ b' → upd b v f b' = f b'.
Proof. unfold upd. destruct b, b'; simpl; congruence. Qed.

Lemma lines_of_app b (l1 l2 : list (bool * string)) :
  lines_of b (l1 ++ l2) = (lines_of b l1 ++ lines_of b l2)%list.
Proof. unfold lines_of. apply omap_app. Qed.


Lemma inv_init : inv script status (pinit None).
Proof.
  split; simpl; done.
Qed.

Lemma inv_main s s' : inv script status s → exec_main None popen_error script s = Some s' → inv script status s'.
Proof.
  intros [Hc Hr Hs Hp Hn] Hex. unfold exec_main in Hex.
  destruct (pc _ s) eqn:Hpc; simplify_eq/=.
  - destruct popen_error; simplify_eq/=; split; simpl; try done.
    + intros b. specialize (Hc b). by rewrite Hn in Hc.
    + intros b. specialize (Hr b). rewrite Hn in Hr by done.
      destruct (reader _ s b); [done| |]; destruct Hr as [? Hr]; try done.
      split; [done|]. intros Hfin. destruct (Hr Hfin) as [_ [? ?]]. done.
      destruct Hr; done.
  - split; simpl; try done.
    intros b. specialize (Hr b). destruct b; unfold upd; simpl; [naive_solver|done].
  - split; simpl; try done.
    intros b. specialize (Hr b). destruct b; unfold upd; simpl; [done|naive_solver].
  - destruct (reader _ s true); simplify_eq/=. split; simpl; done.
  - destruct (reader _ s false); simplify_eq/=. split; simpl; done.
  - destruct (child _ s) eqn:Hch; simplify_eq/=. split; simpl; try done.
    all: rewrite ?Hch; try done.
    + intros rc0 [= <-]. done.
Qed.

Lemma inv_reader_step b s s' : inv script status s → exec_reader None b s = Some s' → inv script status s'.
Proof.
  intros [Hc Hr Hs Hp Hn] Hex. unfold exec_reader in Hex.
  destruct (reader _ s b) as [|[b0 fin]|] eqn:Hb; simplify_eq/=.
  pose proof (Hr b) as Hrb. rewrite Hb in Hrb. simpl in Hrb.
  destruct Hrb as [-> Hfin].
  destruct fin; simplify_eq/=.
  - (* the loop is over: the handler returns *)
    destruct (Hfin eq_refl) as [Hpipe Hex].
    split; simpl; try done.
    intros b'. specialize (Hr b'). unfold upd.
    destruct (Bool.eqb b b') eqn:Hbb; [|done].
    apply Bool.eqb_prop in Hbb as <-. done.
  - destruct (pipe _ s b) as [|msg rest] eqn:Hpipe; simplify_eq/=.
    + (* end of input *)
      destruct (child _ s) eqn:Hch; simplify_eq/=.
      split; simpl; rewrite ?Hch; try done.
      * intros b'. unfold emit. simpl. rewrite app_nil_r.
        apply Hc.
      * intros b'. specialize (Hr b'). unfold upd.
        destruct (Bool.eqb b b') eqn:Hbb.
        -- apply Bool.eqb_prop in Hbb as <-. simpl. eauto.
        -- done.
    + (* a line *)
      split; simpl; try done.
      * intros b'. specialize (Hc b'). unfold emit, upd. simpl.
        destruct (Bool.eqb b b') eqn:Hbb.
        -- apply Bool.eqb_prop in Hbb as <-. rewrite Hpipe in Hc.
           rewrite <- Hc. by rewrite <- app_assoc.
        -- by rewrite app_nil_r.
      * intros b'. specialize (Hr b'). unfold upd.
        destruct (Bool.eqb b b') eqn:Hbb; [|done].
        apply Bool.eqb_prop in Hbb as <-. simpl. done.
Qed.

Lemma inv_child_step s s' : inv script status s → exec_child None status capacity s = Some s' → inv script status s'.
Proof.
  intros [Hc Hr Hs Hp Hn] Hex. unfold exec_child in Hex.
  destruct (child _ s) as [|[|[b msg] rest]|] eqn:Hch; simplify_eq/=.
  - split; simpl; try done.
    + intros b'. specialize (Hr b').
      destruct (reader _ s b') as [|st|]; [done| |].
      * destruct Hr as [? Hr]. split; [done|]. intros Hfin.
        destruct (Hr Hfin) as [_ [? ?]]. done.
      * destruct Hr as [_ [? ?]]. done.
    + intros rc [= <-]. done.
    + intros rc Hpc. by apply Hp in Hpc.
    + intros Hpc. by apply Hn in Hpc.
  - destruct (_ <? _)%nat; simplify_eq/=.
    split; simpl; try done.
    + intros b'. specialize (Hc b'). rewrite <- Hc. unfold upd, lines_of. simpl.
      destruct (Bool.eqb b b') eqn:Hbb.
      * apply Bool.eqb_prop in Hbb as <-. by rewrite <- !app_assoc.
      * done.
    + intros b'. specialize (Hr b'). unfold upd.
      destruct (reader _ s b') as [|st|]; [done| |].
      * destruct Hr as [? Hr]. split; [done|]. intros Hfin.
        destruct (Hr Hfin) as [_ [? ?]]. done.
      * destruct Hr as [_ [? ?]]. done.
    + intros rc Hpc. by apply Hp in Hpc.
    + intros Hpc. by apply Hn in Hpc.
Qed.

Lemma inv_reachable s :
  reachable None popen_error script status capacity s → inv script status s.
Proof.
  induction 1 as [|a s s' _ IH Hex]; [apply inv_init|].
  destruct a; simpl in Hex;
    eauto using inv_main, inv_reader_step, inv_child_step.
Qed.


Lemma run_reachable handler sched s s' :
  reachable handler popen_error script status capacity s →
  run handler popen_error script status capacity sched s = Some s' →
  reachable handler popen_error script status capacity s'.
Proof.
  revert s. induction sched as [|a sched IH]; intros s Hs Hrun; simpl in Hrun.
  - by simplify_eq.
  - destruct (exec _ _ _ _ _ a s) as [s1|] eqn:Hex; [|done].
    eapply IH; [|done]. by eapply reach_step.
Qed.

Lemma reachable_run handler s :
  reachable handler popen_error script status capacity s →
  ∃ sched, run handler popen_error script status capacity sched (pinit handler) = Some s.
Proof.
  induction 1 as [|a s s' _ [sched IH] Hex]; [by exists []|].
  exists (sched ++ [a]). revert IH. generalize (pinit handler).
  induction sched as [|a0 sched IHs]; intros s0 Hrun; simpl in *.
  - simplify_eq. by rewrite Hex.
  - destruct (exec _ _ _ _ _ a0 s0); [by apply IHs|done].
Qed.



Lemma step_lowers_weight a s s' :
  inv script status s →
  exec None popen_error script status capacity a s = Some s' →
  (weight script s' < weight script s)%nat.
Proof.
  intros [_ _ _ _ Hn] Hex. unfold weight.
  destruct a as [|b|]; simpl in Hex;
    unfold exec_main, exec_reader, exec_child in Hex.
  - destruct (pc _ s) eqn:Hpc; simplify_eq/=.
    + rewrite (Hn eq_refl).
      destruct popen_error; simplify_eq/=; rewrite ?(Hn eq_refl); simpl; lia.
    + unfold upd; simpl.
      destruct (reader _ s true) as [|[? []]|]; simpl; lia.
    + unfold upd; simpl.
      destruct (reader _ s false) as [|[? []]|]; simpl; lia.
    + destruct (reader _ s true) eqn:Hrd; simplify_eq/=.
      rewrite ?Hpc, ?Hrd. simpl. lia.
    + destruct (reader _ s false) eqn:Hrd; simplify_eq/=.
      rewrite ?Hpc, ?Hrd. simpl. lia.
    + destruct (child _ s) eqn:Hch; simplify_eq/=.
      rewrite ?Hpc, ?Hch. simpl. lia.
  - destruct (reader _ s b) as [|[b0 fin]|] eqn:Hrd; simplify_eq/=.
    destruct fin; simplify_eq/=.
    + destruct b; unfold upd; simpl; rewrite Hrd; simpl; lia.
    + destruct (pipe _ s b) as [|msg rest] eqn:Hpipe; simplify_eq/=.
      * destruct (child _ s) eqn:Hch; simplify_eq/=.
        destruct b; unfold upd; simpl; rewrite Hrd; simpl; lia.
      * destruct b; unfold upd; simpl; rewrite Hrd, Hpipe; simpl; lia.
  - destruct (child _ s) as [|[|[b msg] rest]|] eqn:Hch; simplify_eq/=.
    + lia.
    + destruct (_ <? _)%nat; simplify_eq/=.
      destruct b; unfold upd; simpl; rewrite ?length_app; simpl; lia.
Qed.






End ProcessWrapFacts.



(** * More properties *)

(** ** More about the runs of [upscale_with_vectorization] *)

Section MoreCleanup.
Variable E : Env.

Lemma remove_quietly_frame p w q :
  q ≠ p → fs (remove_quietly E p w).2 !! q = fs w !! q.
Proof.
  intros Hne. destruct (remove_quietly_inv E p w) as (f & evs & -> & _ & Hf).
  simpl. destruct Hf as [[-> _]|[-> _]]; [|done].
  by apply lookup_delete_ne.
Qed.

Lemma cleanup_frame bmp svgo w q :
  q ≠ bmp → svgo ≠ Some q → fs (cleanup E bmp svgo w).2 !! q = fs w !! q.
Proof.
  intros Hb Hs. rewrite cleanup_unfold, mbind_unfold.
  pose proof (remove_quietly_frame bmp w q Hb) as H1.
  destruct (remove_quietly_inv E bmp w) as (f1 & evs1 & Heq & _).
  rewrite Heq in *. simpl in H1.
  destruct svgo as [p|]; [destruct (truthy p)|]; simpl; try done.
  rewrite remove_quietly_frame by congruence. done.
Qed.

(** X1. The [finally] block never raises and touches nothing but the two
    temporary files: it returns, leaves every image as it is, does nothing
    but removals, and every file other than the bitmap and the SVG file is
    as before. *)
Theorem finally_block_never_raises bmp svgo w :
  ∃ w' evs,
    cleanup E bmp svgo w = (Return tt, w') ∧
    heap w' = heap w ∧
    trace w' = trace w ++ evs ∧ Forall is_remove evs ∧
    ∀ q, q ≠ bmp → svgo ≠ Some q → fs w' !! q = fs w !! q.
Proof.
  destruct (cleanup E bmp svgo w) as [r w'] eqn:Hc.
  pose proof (cleanup_frame bmp svgo w) as Hfr. rewrite Hc in Hfr.
  apply cleanup_inv in Hc as (-> & Hh & evs & Ht & Hrm & _).
  by exists w', evs.
Qed.
End MoreCleanup.

Section MoreSteps.
Variable E : Env.

Lemma encode_bmp_returns_supported l w data w' :
  encode_bmp E l w = (Return data, w') →
  ∃ img, heap w !! l = Some img ∧ mode img ∈ bmp_modes.
Proof.
  unfold encode_bmp, try_except, Image_save_bmp. rewrite mbind_unfold.
  destruct (Image_load E l w) as [[[]|e] w1] eqn:Hload; [|done].
  apply Image_load_inv in Hload as (Hfs & Htr & img & Hl & Hw).
  rewrite mbind_unfold. unfold deref. rewrite mbind_unfold. simpl.
  rewrite Hw, lookup_insert_eq. simpl.
  destruct (bool_decide _) eqn:Hm; simpl; [|done].
  intros _. exists img. split; [done|]. by apply bool_decide_eq_true in Hm.
Qed.
End MoreSteps.

Section MorePipeline.
Variable E : Env.
Variables (pil_image : loc) (potrace_args : option (list string))
  (scale : option float) (output_width output_height : option Z).
Variables (files : gmap string bytes) (images : gmap loc PILImage).

(** X2. When [potrace_args] is [None] or the empty list, the command
    handed to [subprocess.run] is exactly
    [potrace <bmp> -s -o <svg>], on the two temporary files of the call, in
    the order they were created. *)
Theorem command_line_without_extra_arguments r w' command :
  run_upscale E pil_image potrace_args scale output_width output_height
    files images = (r, w') →
  potrace_args = None ∨ potrace_args = Some [] →
  command ∈ commands (trace w') →
  ∃ bmp_file_path svg_file_path,
    created (trace w') = [bmp_file_path; svg_file_path] ∧
    command = ["potrace"; bmp_file_path; "-s"; "-o"; svg_file_path].
Proof.
  unfold run_upscale. intros H Hargs Hcmd. run_cases H.
  all: project commands; try no_member.
  all: one_member; project created.
  all: eexists _, _; split; [reflexivity|].
  all: by destruct Hargs as [->| ->].
Qed.

(** X3. One call creates at most two temporary files, starts potrace at
    most once, asks the renderer at most once and encodes at most one
    bitmap. *)
Theorem at_most_one_tracer_run r w' :
  run_upscale E pil_image potrace_args scale output_width output_height
    files images = (r, w') →
  (length (created (trace w')) ≤ 2)%nat ∧
  (length (commands (trace w')) ≤ 1)%nat ∧
  (length (requests (trace w')) ≤ 1)%nat ∧
  (length (encoded (trace w')) ≤ 1)%nat.
Proof.
  unfold run_upscale. intros H. run_cases H.
  all: project created; project commands; project requests; project encoded.
  all: repeat split; simpl; lia.
Qed.

(** X4. A call that returns has taken every step once and in the order
    of the source: the search for potrace, the BMP encoding, the bitmap
    file, its write, the SVG file, the potrace child (with exit status 0),
    the read of the SVG, the rendering with the scale and the size of the
    call, the opening of the PNG, and then nothing but removals. *)
Theorem successful_run_takes_every_step_in_order w' l :
  run_upscale E pil_image potrace_args scale output_width output_height
    files images = (Return l, w') →
  ∃ tool enc bmp_data bmp_file_path svg_file_path child cp svg_data png l0
    removals,
    trace w' =
      [EWhich "potrace" (Some tool);
       EBmpSave enc (Return bmp_data);
       ETempCreate ".bmp" (Return bmp_file_path);
       EWrite bmp_file_path bmp_data None;
       ETempCreate ".svg" (Return svg_file_path);
       EChild (build_command bmp_file_path svg_file_path potrace_args) child;
       ERun (build_command bmp_file_path svg_file_path potrace_args) (Return cp);
       EReadFile svg_file_path (Return svg_data);
       ESvg2Png svg_data (default 1.0%float scale) output_width output_height
         (Return png);
       EImageOpen png (Return l0)] ++ removals ∧
    exit_status child = 0%Z ∧ returncode cp = 0%Z ∧
    Forall is_remove removals.
Proof.
  unfold run_upscale. intros H. run_cases H.
  match goal with
  | Hrc : negb (exit_status ?c =? 0)%Z = false |- _ =>
      apply negb_false_iff, Z.eqb_eq in Hrc
  end.
  destruct (which E "potrace") as [tool|] eqn:Hwhich; [|done].
  destruct Hdec as (l0 & img0 & buf & -> & _).
  eexists _, _, _, _, _, _, _, _, _, _, _. split; [reflexivity|]. done.
Qed.

(** X5. With potrace found, an input image whose mode the BMP encoder
    does not write (any mode outside 1, L, P, RGB, RGBA) makes the call
    raise the [RuntimeError] of step 2 before any temporary file is created
    or any command is run; the file system is left as it was. *)
Theorem unsupported_mode_fails_before_any_file r w' img :
  run_upscale E pil_image potrace_args scale output_width output_height
    files images = (r, w') →
  truthy_opt (which E "potrace") = true →
  images !! pil_image = Some img →
  mode img ∉ bmp_modes →
  (∃ msg, r = Raise (RuntimeError
     ("Failed to convert input image to BMP in memory: " +:+ msg))) ∧
  created (trace w') = [] ∧ commands (trace w') = [] ∧ fs w' = files.
Proof.
  unfold run_upscale. intros H Htool Himg Hmode.
  assert (mode img ≠ "RGBA") as Hrgba.
  { intros Heq. apply Hmode. rewrite Heq. unfold bmp_modes. in_list. }
  run_cases H.
  all: try (rewrite Htool in *; done).
  all: unfold used in *.
  all: match goal with
       | Hn : alpha_normalize _ _ ?w0 = _ |- _ =>
           rewrite (alpha_normalize_other E pil_image img w0 Himg Hrgba) in Hn;
           first [ discriminate Hn | injection Hn as <- Hw ]
       end.
  all: try match goal with
       | He : encode_bmp _ _ _ = (Return _, _) |- _ =>
           apply encode_bmp_returns_supported in He as (? & He & ?);
           rewrite <- Hw in He; simpl in He; rewrite Himg in He;
           by simplify_eq
       end.
  all: project created; project commands.
  all: split; [eauto|done].
Qed.

(** X6. When writing the bitmap file fails, the error of the write is
    what the call raises, the bitmap file is the only file created, it is
    still there afterwards, and nothing is removed: the write happens before
    the [try] whose [finally] cleans up. *)
Theorem failed_write_leaves_bitmap_file r w' p :
  run_upscale E pil_image potrace_args scale output_width output_height
    files images = (r, w') →
  p ∈ failed_writes (trace w') →
  (∃ e, write_error E p = Some e ∧ r = Raise e) ∧
  created (trace w') = [p] ∧
  is_Some (fs w' !! p) ∧
  ∀ q err, ERemove q err ∉ trace w'.
Proof.
  unfold run_upscale. intros H Hp. run_cases H.
  all: project failed_writes; try no_member.
  all: one_member; project created.
  split; [eauto|]. split; [done|]. split.
  - rewrite lookup_insert_eq. eauto.
  - intros q err Hin.
    repeat (apply elem_of_cons in Hin as [Hin|Hin]; [discriminate|]).
    by apply elem_of_nil in Hin.
Qed.

(** X7. A file that is not one of the call's temporary files, and that
    the potrace child leaves alone, is after the call what it was before,
    whatever the outcome. *)
Theorem other_files_are_left_alone r w' q :
  run_upscale E pil_image potrace_args scale output_width output_height
    files images = (r, w') →
  (∀ command f cp f', subprocess_run E command f = Return (cp, f') →
     f' !! q = f !! q) →
  q ∉ created (trace w') →
  fs w' !! q = files !! q.
Proof.
  unfold run_upscale. intros H Hchild Hq.
  crunch H; stage_facts; unfold used in *.
  all: repeat match goal with
       | Hc : cleanup E ?bmp ?svg ?w = (_, ?w1) |- _ =>
           pose proof (cleanup_frame E bmp svg w q) as Hfr;
           rewrite Hc in Hfr; simpl in Hfr; clear Hc
       end.
  all: flatten_trace.
  all: project created.
  all: repeat match goal with
       | H : _ ∉ _ :: _ |- _ => apply not_elem_of_cons in H as [? H]
       end.
  all: repeat match goal with
       | H : subprocess_run E _ _ = Return _ |- _ => apply Hchild in H
       end.
  all: try match goal with
       | H : _ → _ → fs _ !! _ = _ |- _ => rewrite H by congruence
       end.
  all: repeat match goal with
       | H : ?g !! ?k = _ |- context [?g !! ?k] => rewrite H
       end.
  all: rewrite ?lookup_insert_ne by done.
  all: try done.
  all: congruence.
Qed.

(** X8. Once potrace has ended with exit status 0, an error of the call
    is a [RuntimeError] of one of the three later steps: reading the SVG
    file, rendering it, or opening the PNG. *)
Theorem later_stage_errors_are_wrapped e w' cp :
  run_upscale E pil_image potrace_args scale output_width output_height
    files images = (Raise e, w') →
  cp ∈ completed (trace w') → returncode cp = 0%Z →
  ∃ msg,
    e = RuntimeError ("Failed to read generated SVG file: " +:+ msg) ∨
    e = RuntimeError ("Failed to convert SVG to PNG using CairoSVG: " +:+ msg) ∨
    e = RuntimeError ("Failed to open generated PNG as PIL Image: " +:+ msg).
Proof.
  unfold run_upscale. intros H Hcp Hrc. run_cases H.
  all: project completed; try no_member.
  all: one_member.
  all: try match goal with
       | Hneg : negb (exit_status _ =? 0)%Z = true |- _ =>
           apply negb_true_iff, Z.eqb_neq in Hneg; simpl in Hrc; done
       end.
  all: try (destruct Hdec as [e0 ->]).
  all: eexists; eauto.
Qed.

(** X9. An error raised while creating a temporary file, or by
    [subprocess.run] itself (the launch, or the decoding of the captured
    output), is raised by the call as it is, not wrapped in a
    [RuntimeError]. *)
Theorem launch_and_tempfile_errors_pass_unwrapped r w' e :
  run_upscale E pil_image potrace_args scale output_width output_height
    files images = (r, w') →
  (∃ suffix, ETempCreate suffix (Raise e) ∈ trace w') ∨
  (∃ command, ERun command (Raise e) ∈ trace w') →
  r = Raise e.
Proof.
  unfold run_upscale. intros H Hev. run_cases H.
  all: destruct Hev as [[? Hev]|[? Hev]].
  all: repeat (apply elem_of_cons in Hev as [Hev|Hev]; [by simplify_eq|]).
  all: try (by apply elem_of_nil in Hev).
  all: match goal with
       | Hrm : Forall is_remove ?l, Hin : _ ∈ ?l |- _ =>
           by apply (proj1 (Forall_forall _ _) Hrm) in Hin
       end.
Qed.
End MorePipeline.

(** ** Step 1 on RGBA images, and the nodes *)

Lemma rgba_ind (P : list Z → Prop) :
  (∀ l, (length l < 4)%nat → P l) →
  (∀ r g b a rest, P rest → P (r :: g :: b :: a :: rest)) →
  ∀ l, P l.
Proof.
  intros Hshort Hpixel. fix IH 1.
  intros [|r [|g [|b [|a rest]]]]; try (apply Hshort; simpl; lia).
  apply Hpixel, IH.
Qed.

Lemma composite_on_white_opaque buf :
  Forall (λ a, a = 255%Z) (alphas buf) → composite_on_white buf = rgba2rgb buf.
Proof.
  induction buf as [l Hl|r g b a rest IH] using rgba_ind.
  - by destruct l as [|? [|? [|? [|? ?]]]]; simpl in *; try lia.
  - simpl. intros Hall. apply Forall_cons in Hall as [-> Hall].
    rewrite !over_white_opaque. by rewrite IH.
Qed.

Lemma composite_on_white_transparent buf :
  Forall (λ a, a = 0%Z) (alphas buf) →
  Forall (λ c, c = 255%Z) (composite_on_white buf).
Proof.
  induction buf as [l Hl|r g b a rest IH] using rgba_ind.
  - by destruct l as [|? [|? [|? [|? ?]]]]; simpl in *; try lia.
  - simpl. intros Hall. apply Forall_cons in Hall as [-> Hall].
    rewrite !over_white_transparent. repeat constructor. by apply IH.
Qed.

Lemma composite_on_white_channels buf :
  Forall channel buf → Forall channel (composite_on_white buf).
Proof.
  induction buf as [l Hl|r g b a rest IH] using rgba_ind.
  - intros _. by destruct l as [|? [|? [|? [|? ?]]]]; simpl in *; try lia.
  - simpl. intros Hall.
    apply Forall_cons in Hall as [Hr Hall]. apply Forall_cons in Hall as [Hg Hall].
    apply Forall_cons in Hall as [Hb Hall]. apply Forall_cons in Hall as [Ha Hall].
    assert (∀ c, channel c → channel (over_white c a)) as Hch.
    { intros c Hc. pose proof (over_white_range c a Hc Ha). unfold channel in *. lia. }
    repeat (constructor; [by apply Hch|]). by apply IH.
Qed.

Lemma composite_on_white_length n buf :
  length buf = (4 * n)%nat → length (composite_on_white buf) = (3 * n)%nat.
Proof.
  revert n. induction buf as [l Hl|r g b a rest IH] using rgba_ind; intros n Hn.
  - destruct l as [|? [|? [|? [|? ?]]]]; simpl in *; lia.
  - destruct n as [|n]; simpl in Hn; [lia|]. simpl.
    rewrite (IH n) by lia. lia.
Qed.

Section MoreNormalize.
Variable E : Env.

(** X10. Step 1 turns a well-formed RGBA image into a loaded RGB image of
    the same size, with three bytes per pixel, each between 0 and 255. *)
Theorem normalized_rgba_is_well_formed_rgb l img w l1 w' :
  heap w !! l = Some img → mode img = "RGBA" → wf_rgba img →
  alpha_normalize E l w = (Return l1, w') →
  ∃ img1, heap w' !! l1 = Some img1 ∧
    mode img1 = "RGB" ∧ size img1 = size img ∧ loaded img1 = true ∧
    length (pixels img1) = (3 * Z.to_nat ((size img).1 * (size img).2))%nat ∧
    Forall channel (pixels img1).
Proof.
  intros Hl Hmode Hwf H.
  destruct (alpha_normalize_rgba E l img w l1 w' Hl Hmode Hwf H)
    as (img1 & Hl1 & _ & Hm & Hs & Hp & Hld).
  destruct Hwf as (_ & _ & Hlen & Hch).
  exists img1. repeat split; try done; rewrite Hp.
  - by apply composite_on_white_length.
  - by apply composite_on_white_channels.
Qed.

(** X11. Step 1 on an RGBA image whose pixels are all opaque keeps the
    colours (it only drops the alpha band); on one whose pixels are all
    transparent it gives a white picture. *)
Theorem opaque_pixels_keep_colour_transparent_turn_white l img w l1 w' :
  heap w !! l = Some img → mode img = "RGBA" → wf_rgba img →
  alpha_normalize E l w = (Return l1, w') →
  ∃ img1, heap w' !! l1 = Some img1 ∧
    (Forall (λ a, a = 255%Z) (alphas (pixels img)) →
       pixels img1 = rgba2rgb (pixels img)) ∧
    (Forall (λ a, a = 0%Z) (alphas (pixels img)) →
       Forall (λ c, c = 255%Z) (pixels img1)).
Proof.
  intros Hl Hmode Hwf H.
  destruct (alpha_normalize_rgba E l img w l1 w' Hl Hmode Hwf H)
    as (img1 & Hl1 & _ & Hm & Hs & Hp & Hld).
  exists img1. split; [done|]. rewrite Hp. split.
  - apply composite_on_white_opaque.
  - apply composite_on_white_transparent.
Qed.

Lemma Image_load_returns l img w :
  heap w !! l = Some img →
  loaded img = true ∨ decode_error E img = None →
  ∃ w1, Image_load E l w = (Return tt, w1) ∧
    heap w1 = <[l := set_loaded img]> (heap w).
Proof.
  intros Hl Hok. unfold Image_load, deref. rewrite !mbind_unfold. simpl.
  rewrite Hl. simpl. destruct (loaded img) eqn:Hld.
  - eexists. split; [done|]. rewrite set_loaded_id by done.
    by rewrite insert_id.
  - destruct Hok as [? | ->]; [done|]. by eexists.
Qed.

Lemma Image_convert_returns l img w buf m :
  heap w !! l = Some img →
  loaded img = true ∨ decode_error E img = None →
  convert_buffer E (mode img) m (pixels img) = Return buf →
  ∃ l1 w1, Image_convert E l m w = (Return l1, w1).
Proof.
  intros Hl Hok Hbuf. unfold Image_convert. rewrite mbind_unfold.
  destruct (Image_load_returns l img w Hl Hok) as (w1 & -> & Hw1).
  unfold deref. rewrite !mbind_unfold. simpl.
  rewrite Hw1, lookup_insert_eq. simpl. rewrite Hbuf.
  match goal with
  | |- context [alloc ?x ?w] =>
      destruct (alloc x w) as [r w2] eqn:Ha;
      apply alloc_inv in Ha as (l1 & -> & _)
  end.
  by eexists _, _.
Qed.

Lemma deref_lookup l img w : heap w !! l = Some img → deref l w = (Return img, w).
Proof. intros Hl. unfold deref. rewrite mbind_unfold. simpl. by rewrite Hl. Qed.

Lemma alloc_returns img w :
  ∃ l w1, alloc img w = (Return l, w1) ∧ heap w !! l = None ∧
    heap w1 = <[l := img]> (heap w).
Proof.
  destruct (alloc img w) as [r w1] eqn:Ha.
  apply alloc_inv in Ha as (l & -> & ? & ? & _). by exists l, w1.
Qed.

(** X12. Step 1 returns on every well-formed RGBA image whose pixel data
    can be read, and what it returns is a new image object, not the
    caller's. *)
Theorem alpha_normalize_succeeds_on_rgba l img w :
  heap w !! l = Some img → mode img = "RGBA" → wf_rgba img →
  loaded img = true ∨ decode_error E img = None →
  ∃ l1 w', alpha_normalize E l w = (Return l1, w') ∧ l1 ≠ l.
Proof.
  intros Hl Hmode Hwf Hload.
  cut (∃ l1 w', alpha_normalize E l w = (Return l1, w')).
  { intros (l1 & w' & H). exists l1, w'. split; [done|].
    by destruct (alpha_normalize_rgba E l img w l1 w' Hl Hmode Hwf H)
      as (? & _ & ? & _). }
  destruct Hwf as (Hw & Hh & _).
  unfold alpha_normalize. rewrite mbind_unfold, (deref_lookup l img w Hl).
  cbv beta iota. rewrite Hmode, String.eqb_refl.
  unfold Image_new. rewrite bool_decide_eq_true_2 by done.
  rewrite mbind_unfold.
  match goal with
  | |- context [alloc ?x w] =>
      destruct (alloc_returns x w) as (bg & w1 & -> & Hfresh & Hw1);
      set (white := x) in *
  end.
  cbv beta iota.
  assert (bg ≠ l) as Hne by congruence.
  assert (heap w1 !! bg = Some white) as Hbg by (by rewrite Hw1, lookup_insert_eq).
  destruct (Image_load_returns bg white w1 Hbg (or_introl eq_refl))
    as (w2 & Hl2 & Hw2).
  assert (heap w2 !! l = Some img) as Hl'
    by (by rewrite Hw2, lookup_insert_ne, Hw1, lookup_insert_ne).
  destruct (Image_load_returns l img w2 Hl' Hload) as (w3 & Hl3 & Hw3).
  assert (heap w3 !! bg = Some white) as Hbg3
    by (by rewrite Hw3, lookup_insert_ne, Hw2, lookup_insert_eq).
  assert (heap w3 !! l = Some (set_loaded img)) as Hl3'
    by (by rewrite Hw3, lookup_insert_eq).
  unfold Image_alpha_composite.
  rewrite !mbind_unfold, Hl2. cbv beta iota.
  rewrite !mbind_unfold, Hl3. cbv beta iota.
  rewrite !mbind_unfold, (deref_lookup _ _ _ Hbg3). cbv beta iota.
  rewrite !mbind_unfold, (deref_lookup _ _ _ Hl3'). cbv beta iota.
  change (mode white) with "RGBA". change (mode (set_loaded img)) with (mode img).
  change (size white) with (size img). change (size (set_loaded img)) with (size img).
  rewrite Hmode, !String.eqb_refl, bool_decide_eq_true_2 by done.
  cbn [negb andb].
  match goal with
  | |- context [alloc ?x w3] =>
      destruct (alloc_returns x w3) as (comp & w4 & -> & _ & Hw4);
      set (composite := x) in *
  end.
  cbv beta iota.
  apply (Image_convert_returns comp composite w4 (rgba2rgb (pixels composite))).
  - by rewrite Hw4, lookup_insert_eq.
  - by left.
  - reflexivity.
Qed.
End MoreNormalize.

Section Nodes.
Variable E : Env.
Variables (files : gmap string bytes) (images : gmap loc PILImage).

Lemma run_requests pil_image potrace_args scale ow oh r w' req :
  upscale_with_vectorization E pil_image potrace_args scale ow oh
    (initial_world files images) = (r, w') →
  req ∈ requests (trace w') → req = (default 1.0%float scale, ow, oh).
Proof.
  intros H Hreq. run_cases H.
  all: project requests; try no_member; try (one_member; done).
Qed.

Lemma run_commands pil_image scale ow oh r w' command :
  upscale_with_vectorization E pil_image None scale ow oh
    (initial_world files images) = (r, w') →
  command ∈ commands (trace w') →
  ∃ bmp svg, command = ["potrace"; bmp; "-s"; "-o"; svg].
Proof.
  intros H Hcmd. run_cases H.
  all: project commands; try no_member.
  all: one_member; by eexists _, _.
Qed.

(** X13. [VectorizedUpscaleScaling.vectorized_upscale] passes the node's
    scale to the renderer with no output size, and runs potrace with no
    extra argument. *)
Theorem scaling_node_sends_the_scale_alone image scale r w' :
  vectorized_upscale E image scale (initial_world files images) = (r, w') →
  (∀ req, req ∈ requests (trace w') →
     req = (scale, None, None) ∧ one_sizing_mode req) ∧
  (∀ command, command ∈ commands (trace w') →
     ∃ bmp svg, command = ["potrace"; bmp; "-s"; "-o"; svg]).
Proof.
  unfold vectorized_upscale. intros H. split.
  - intros req Hreq. apply (run_requests _ _ _ _ _ _ _ _ H) in Hreq as ->.
    by repeat split.
  - intros command. by apply (run_commands _ _ _ _ _ _ _ H).
Qed.

(** X14. [VectorizedUpscaleSize.vectorized_upscale_size] passes the
    node's width and height to the renderer together with the default scale
    1.0, and runs potrace with no extra argument. *)
Theorem size_node_sends_the_size_with_unit_scale image width height r w' :
  vectorized_upscale_size E image width height (initial_world files images)
    = (r, w') →
  (∀ req, req ∈ requests (trace w') →
     req = (1.0%float, Some width, Some height)) ∧
  (∀ command, command ∈ commands (trace w') →
     ∃ bmp svg, command = ["potrace"; bmp; "-s"; "-o"; svg]).
Proof.
  unfold vectorized_upscale_size. intros H. split.
  - intros req Hreq. by apply (run_requests _ _ _ _ _ _ _ _ H) in Hreq as ->.
  - intros command. by apply (run_commands _ _ _ _ _ _ _ H).
Qed.
End Nodes.

(** ** More about [process_wrap] *)

Section MoreProcessWrap.
Variable popen_error : option exn.
Variable script : list (bool * string).
Variable status : Z.
Variable capacity : nat.

Lemma idle_reachable handler e s :
  popen_error = Some e →
  reachable handler popen_error script status capacity s →
  (pc handler s = AtPopen ∨ pc handler s = Raised e) ∧ idle handler s.
Proof.
  intros He. induction 1 as [|a s s' Hr IH Hex].
  { split; [by left|]. by split. }
  destruct IH as [Hpc (Hch & Hidle)].
  destruct a as [|b|]; simpl in Hex;
    unfold exec_main, exec_reader, exec_child in Hex.
  - rewrite He in Hex.
    destruct Hpc as [Hpc|Hpc]; rewrite Hpc in Hex; simplify_eq/=.
    split; [by right|]. by split.
  - destruct (Hidle b) as (Hb & _). by rewrite Hb in Hex.
  - by rewrite Hch in Hex.
Qed.

(** X15. When [Popen] raises, [process_wrap] raises that error and has
    started nothing: no child, no reader thread, nothing printed, under
    every schedule and with every handler. *)
Theorem failed_launch_starts_nothing handler e sched s :
  popen_error = Some e →
  run handler popen_error script status capacity sched (pinit handler) = Some s →
  (pc handler s = AtPopen ∨ pc handler s = Raised e) ∧
  child handler s = NotSpawned ∧
  ∀ b, reader handler s b = NotStarted ∧ printed handler s b = [].
Proof.
  intros He Hrun.
  assert (reachable handler popen_error script status capacity s) as Hreach.
  { eapply run_reachable; [apply reach_init|done]. }
  destruct (idle_reachable handler e s He Hreach) as (Hpc & Hch & Hidle).
  repeat split; try done; by destruct (Hidle b) as (? & ? & ?).
Qed.


(** X17. With the default handler no schedule is longer than twice the
    number of lines the child writes plus 25: nobody can be run for
    ever. *)
Theorem default_handler_runs_are_bounded sched s :
  run None popen_error script status capacity sched (pinit None) = Some s →
  (length sched + weight script s ≤ 2 * length script + 25)%nat.
Proof.
  assert (∀ s0, reachable None popen_error script status capacity s0 →
            run None popen_error script status capacity sched s0 = Some s →
            (length sched + weight script s ≤ weight script s0)%nat) as Hgen.
  { induction sched as [|a sched IH]; intros s0 Hs0 Hrun; simpl in Hrun.
    - simplify_eq. simpl. lia.
    - destruct (exec _ _ _ _ _ a s0) as [s1|] eqn:Hex; [|done].
      assert (reachable None popen_error script status capacity s1) as Hs1
        by (by eapply reach_step).
      specialize (IH s1 Hs1 Hrun).
      pose proof (step_lowers_weight popen_error script status capacity a s0 s1
                    (inv_reachable _ _ _ _ s0 Hs0) Hex).
      simpl. lia. }
  intros Hrun. specialize (Hgen _ (reach_init _ _ _ _ _) Hrun).
  unfold weight in Hgen at 2. simpl in Hgen. lia.
Qed.

End MoreProcessWrap.

(** ** The installer *)

Section Installer.
Variable host : Host.


Lemma run_installation_inv pkg_name t r t' :
  run_installation host pkg_name t = (r, t') →
  ∃ res,
    res = wrap host (t ++ [IPrint ("Installing " +:+ pkg_name +:+ "...")])
            (pip_install (executable host) ++ [pkg_name]) ∧
    match res with
    | Return rc =>
        r = Return tt ∧
        t' = t ++ [IPrint ("Installing " +:+ pkg_name +:+ "...");
                   IWrap (pip_install (executable host) ++ [pkg_name]) res;
                   IPrint ((if (rc =? 0)%Z then "Successfully installed "
                            else "Failed to install ") +:+ pkg_name)]
    | Raise e =>
        r = Raise e ∧
        t' = t ++ [IPrint ("Installing " +:+ pkg_name +:+ "...");
                   IWrap (pip_install (executable host) ++ [pkg_name]) res]
    end.
Proof.
  unfold run_installation. cbv zeta. intros Hrun. eexists. split; [done|].
  destruct (wrap host _ _) as [rc|e].
  - destruct (rc =? 0)%Z; simplify_eq; split; try done;
      by rewrite <- !app_assoc.
  - simplify_eq. split; [done|]. by rewrite <- !app_assoc.
Qed.


Lemma run_installation_events pkg_name t r t' :
  run_installation host pkg_name t = (r, t') →
  ∃ evs, t' = t ++ evs ∧ tried evs = [] ∧ missing evs = [] ∧
    launched evs = [pip_install (executable host) ++ [pkg_name]].
Proof.
  intros Hrun.
  destruct (run_installation_inv _ _ _ _ Hrun) as (res & _ & Hres).
  destruct res; destruct Hres as [_ ->]; by eexists.
Qed.

Lemma install_each_events requirements t r t' :
  install_each host requirements t = (r, t') →
  ∃ evs, t' = t ++ evs ∧
    tried evs `prefix_of` requirements ∧
    (r = Return tt → tried evs = requirements) ∧
    launched evs = map (fun req => pip_install (executable host) ++ [req]) (missing evs).
Proof.
  revert t. induction requirements as [|req rest IH]; intros t Hrun; simpl in Hrun.
  - simplify_eq. exists []. rewrite app_nil_r. by repeat split.
  - destruct (import_module host t req) eqn:Himp.
    + apply IH in Hrun as (evs & -> & Hpre & Hall & Hl).
      exists ([IImport req Imported; IPrint (req +:+ " already installed.")] ++ evs).
      rewrite <- !app_assoc. split; [done|].
      unfold tried, missing, launched in *. rewrite !omap_app. simpl.
      split; [by apply prefix_cons|]. split; [|done].
      intros Hr. by rewrite Hall.
    + destruct (run_installation host req _) as [[[]|e] t2] eqn:Hinst;
        apply run_installation_events in Hinst as (evs1 & -> & Ht1 & Hm1 & Hl1).
      * apply IH in Hrun as (evs & -> & Hpre & Hall & Hl).
        exists ([IImport req ImportError] ++ evs1 ++ evs).
        rewrite <- !app_assoc. split; [done|].
        unfold tried, missing, launched in *. rewrite !omap_app. simpl.
        rewrite Ht1, Hm1, Hl1. simpl.
        split; [by apply prefix_cons|]. split; [|by rewrite Hl].
        intros Hr. by rewrite Hall.
      * simplify_eq. exists ([IImport req ImportError] ++ evs1).
        rewrite <- !app_assoc. split; [done|].
        unfold tried, missing, launched in *. rewrite !omap_app. simpl.
        rewrite Ht1, Hm1, Hl1. simpl.
        split; [apply prefix_cons, prefix_nil|]. by split.
    + simplify_eq. exists [IImport req (ImportRaised e)]. split; [done|].
      split; [apply prefix_cons, prefix_nil|]. by split.
Qed.

(** X20. [initialization] tries the requirements in the order of the
    file, all of them when it returns; the commands it launches are the pip
    commands of the requirements that could not be imported, in that
    order. *)
Theorem initialization_installs_what_is_missing t r t' :
  initialization host t = (r, t') →
  ∃ evs, t' = t ++ evs ∧
    launched evs = map (fun req => pip_install (executable host) ++ [req]) (missing evs) ∧
    ∀ requirements, read_requirements host = Return requirements →
      tried evs `prefix_of` requirements ∧
      (r = Return tt → tried evs = requirements).
Proof.
  unfold initialization. destruct (read_requirements host) as [reqs|e].
  - intros Hrun. apply install_each_events in Hrun as (evs & -> & ? & ? & ?).
    exists evs. split; [done|]. split; [done|]. intros ? [= <-]. by split.
  - intros [= <- <-]. exists []. rewrite app_nil_r. by repeat split.
Qed.

(** X21. When no import raises anything but [ImportError] and pip can
    always be started, the installer tries every requirement, whatever the
    exit status of pip, and ends with the line [Installation
    completed.]. *)
Theorem failed_install_does_not_stop_the_rest requirements t :
  read_requirements host = Return requirements →
  (∀ t0 name e, import_module host t0 name ≠ ImportRaised e) →
  (∀ t0 cmd_str e, wrap host t0 cmd_str ≠ Raise e) →
  ∃ evs, install_main host t = (Return tt, t ++ evs ++ [IPrint "Installation completed."]) ∧
    tried evs = requirements.
Proof.
  intros Hreq Himp Hwrap.
  assert (∀ reqs t0, ∃ t1, install_each host reqs t0 = (Return tt, t1)) as Hret.
  { induction reqs as [|req rest IH]; intros t0; simpl; [by eexists|].
    destruct (import_module host t0 req) eqn:Hi; [apply IH| |by apply Himp in Hi].
    unfold run_installation. cbv zeta.
    destruct (wrap host _ _) as [rc|e] eqn:Hw; [|by apply Hwrap in Hw].
    destruct (rc =? 0)%Z; apply IH. }
  unfold install_main, initialization. rewrite Hreq.
  destruct (Hret requirements t) as (t1 & Hrun). rewrite Hrun.
  apply install_each_events in Hrun as (evs & -> & _ & Hall & _).
  exists evs. rewrite <- app_assoc. split; [done|]. by apply Hall.
Qed.

(** X22. [initialization] raises only the error of reading the
    requirements (then nothing has happened), of an import that raises
    something other than [ImportError], or of [process_wrap]; that import or
    that command is the last thing that happened. *)
Theorem initialization_fails_only_where_it_stopped t e t' :
  initialization host t = (Raise e, t') →
  read_requirements host = Raise e ∧ t' = t ∨
  ∃ t0 ev, t' = t0 ++ [ev] ∧
    ((∃ name, ev = IImport name (ImportRaised e)) ∨
     (∃ cmd_str, ev = IWrap cmd_str (Raise e))).
Proof.
  unfold initialization. destruct (read_requirements host) as [reqs|e0].
  2: { intros [= <- <-]. by left. }
  intros Hrun. right. revert t Hrun.
  induction reqs as [|req rest IH]; intros t Hrun; simpl in Hrun; [done|].
  destruct (import_module host t req) eqn:Himp.
  - by apply IH in Hrun.
  - destruct (run_installation host req _) as [[[]|e1] t2] eqn:Hinst.
    + by apply IH in Hrun.
    + simplify_eq.
      destruct (run_installation_inv _ _ _ _ Hinst)
        as (res & _ & Hres).
      destruct res as [rc|e1]; destruct Hres as [? ->]; simplify_eq.
      eexists ((t ++ [IImport req ImportError])
                 ++ [IPrint ("Installing " +:+ req +:+ "...")]), _.
      split; [by rewrite <- !app_assoc|]. eauto.
  - simplify_eq. eexists _, _. split; [done|]. eauto.
Qed.
End Installer.

(** ** The further properties on sample runs *)

Lemma command_line_without_extra_arguments_witness :
  ["potrace"; "/tmp/tmpa1b2c3.bmp"; "-s"; "-o"; "/tmp/tmpa1b2c3.svg"]
    ∈ commands (trace plain_run.2) ∧
  ∃ bmp_file_path svg_file_path,
    created (trace plain_run.2) = [bmp_file_path; svg_file_path] ∧
    ["potrace"; "/tmp/tmpa1b2c3.bmp"; "-s"; "-o"; "/tmp/tmpa1b2c3.svg"]
      = ["potrace"; bmp_file_path; "-s"; "-o"; svg_file_path].
Proof.
  assert (run_upscale sample_env 0 None None None None ∅ {[0%nat := rgb_image]}
          = (plain_run.1, plain_run.2)) as Hrun by (vm_compute; reflexivity).
  assert (["potrace"; "/tmp/tmpa1b2c3.bmp"; "-s"; "-o"; "/tmp/tmpa1b2c3.svg"]
            ∈ commands (trace plain_run.2)) as Hcmd
    by (vm_compute; in_list).
  split; [exact Hcmd|].
  exact (command_line_without_extra_arguments _ _ _ _ _ _ _ _ _ _ _
           Hrun (or_introl eq_refl) Hcmd).
Defined.

Lemma at_most_one_tracer_run_witness :
  (length (created (trace plain_run.2)) ≤ 2)%nat ∧
  (length (commands (trace plain_run.2)) ≤ 1)%nat ∧
  (length (requests (trace plain_run.2)) ≤ 1)%nat ∧
  (length (encoded (trace plain_run.2)) ≤ 1)%nat.
Proof.
  assert (run_upscale sample_env 0 None None None None ∅ {[0%nat := rgb_image]}
          = (plain_run.1, plain_run.2)) as Hrun by (vm_compute; reflexivity).
  exact (at_most_one_tracer_run _ _ _ _ _ _ _ _ _ _ Hrun).
Defined.

Lemma successful_run_takes_every_step_in_order_witness :
  plain_run.1 = Return 2%nat ∧
  ∃ tool enc bmp_data bmp_file_path svg_file_path child cp svg_data png l0
    removals,
    trace plain_run.2 =
      [EWhich "potrace" (Some tool);
       EBmpSave enc (Return bmp_data);
       ETempCreate ".bmp" (Return bmp_file_path);
       EWrite bmp_file_path bmp_data None;
       ETempCreate ".svg" (Return svg_file_path);
       EChild (build_command bmp_file_path svg_file_path None) child;
       ERun (build_command bmp_file_path svg_file_path None) (Return cp);
       EReadFile svg_file_path (Return svg_data);
       ESvg2Png svg_data (default 1.0%float None) None None (Return png);
       EImageOpen png (Return l0)] ++ removals ∧
    exit_status child = 0%Z ∧ returncode cp = 0%Z ∧
    Forall is_remove removals.
Proof.
  assert (run_upscale sample_env 0 None None None None ∅ {[0%nat := rgb_image]}
          = (Return 2%nat, plain_run.2)) as Hrun by (vm_compute; reflexivity).
  split; [vm_compute; reflexivity|].
  exact (successful_run_takes_every_step_in_order _ _ _ _ _ _ _ _ _ _ Hrun).
Defined.

Lemma unsupported_mode_fails_before_any_file_witness :
  truthy_opt (which sample_env "potrace") = true ∧
  ({[0%nat := la_image]} : gmap loc PILImage) !! 0%nat = Some la_image ∧
  (mode la_image ∉ bmp_modes) ∧
  (∃ msg, la_run.1 = Raise (RuntimeError
     ("Failed to convert input image to BMP in memory: " +:+ msg))) ∧
  created (trace la_run.2) = [] ∧ commands (trace la_run.2) = [] ∧
  fs la_run.2 = ∅.
Proof.
  assert (run_upscale sample_env 0 None None None None ∅ {[0%nat := la_image]}
          = (la_run.1, la_run.2)) as Hrun by (vm_compute; reflexivity).
  assert (truthy_opt (which sample_env "potrace") = true) as Htool
    by (vm_compute; reflexivity).
  assert (({[0%nat := la_image]} : gmap loc PILImage) !! 0%nat = Some la_image)
    as Himg by (vm_compute; reflexivity).
  assert (mode la_image ∉ bmp_modes) as Hmode.
  { intros Hin. unfold bmp_modes in Hin.
    repeat (apply elem_of_cons in Hin as [Hin|Hin]; [discriminate Hin|]).
    by apply elem_of_nil in Hin. }
  repeat (split; [assumption|]).
  exact (unsupported_mode_fails_before_any_file _ _ _ _ _ _ _ _ _ _ _
           Hrun Htool Himg Hmode).
Defined.

Lemma failed_write_leaves_bitmap_file_witness :
  "/tmp/tmpa1b2c3.bmp" ∈ failed_writes (trace full_disk_run.2) ∧
  (∃ e, write_error full_disk_env "/tmp/tmpa1b2c3.bmp" = Some e ∧
        full_disk_run.1 = Raise e) ∧
  created (trace full_disk_run.2) = ["/tmp/tmpa1b2c3.bmp"] ∧
  is_Some (fs full_disk_run.2 !! "/tmp/tmpa1b2c3.bmp") ∧
  ∀ q err, ERemove q err ∉ trace full_disk_run.2.
Proof.
  assert (run_upscale full_disk_env 0 None None None None ∅ {[0%nat := rgb_image]}
          = (full_disk_run.1, full_disk_run.2)) as Hrun
    by (vm_compute; reflexivity).
  assert ("/tmp/tmpa1b2c3.bmp" ∈ failed_writes (trace full_disk_run.2)) as Hp
    by (vm_compute; apply list_elem_of_here).
  split; [exact Hp|].
  exact (failed_write_leaves_bitmap_file _ _ _ _ _ _ _ _ _ _ _ Hrun Hp).
Defined.

Lemma other_files_are_left_alone_witness :
  ("/home/me/cat.png" ∉ created (trace user_files_run.2)) ∧
  fs user_files_run.2 !! "/home/me/cat.png" = user_files !! "/home/me/cat.png".
Proof.
  assert (run_upscale failing_potrace_env 0 None None None None user_files
            {[0%nat := rgb_image]}
          = (user_files_run.1, user_files_run.2)) as Hrun
    by (vm_compute; reflexivity).
  assert (∀ command f cp f',
            subprocess_run failing_potrace_env command f = Return (cp, f') →
            f' !! "/home/me/cat.png" = f !! "/home/me/cat.png") as Hchild.
  { intros command f cp f' Heq. simpl in Heq. by injection Heq as _ <-. }
  assert ("/home/me/cat.png" ∉ created (trace user_files_run.2)) as Hq.
  { intros Hin. vm_compute in Hin.
    repeat (apply elem_of_cons in Hin as [Hin|Hin]; [discriminate Hin|]).
    by apply elem_of_nil in Hin. }
  split; [exact Hq|].
  exact (other_files_are_left_alone _ _ _ _ _ _ _ _ _ _ _ Hrun Hchild Hq).
Defined.

Lemma later_stage_errors_are_wrapped_witness :
  {| returncode := 0; stdout := ""; stderr := "" |}
    ∈ completed (trace broken_renderer_run.2) ∧
  ∃ msg,
    RuntimeError "Failed to convert SVG to PNG using CairoSVG: no element found"
      = RuntimeError ("Failed to read generated SVG file: " +:+ msg) ∨
    RuntimeError "Failed to convert SVG to PNG using CairoSVG: no element found"
      = RuntimeError ("Failed to convert SVG to PNG using CairoSVG: " +:+ msg) ∨
    RuntimeError "Failed to convert SVG to PNG using CairoSVG: no element found"
      = RuntimeError ("Failed to open generated PNG as PIL Image: " +:+ msg).
Proof.
  assert (run_upscale broken_renderer_env 0 None None None None ∅
            {[0%nat := rgb_image]}
          = (Raise (RuntimeError
               "Failed to convert SVG to PNG using CairoSVG: no element found"),
             broken_renderer_run.2)) as Hrun
    by (vm_compute; reflexivity).
  assert ({| returncode := 0; stdout := ""; stderr := "" |}
            ∈ completed (trace broken_renderer_run.2)) as Hcp
    by (vm_compute; apply list_elem_of_here).
  split; [exact Hcp|].
  exact (later_stage_errors_are_wrapped _ _ _ _ _ _ _ _ _ _ _
           Hrun Hcp eq_refl).
Defined.

Lemma launch_and_tempfile_errors_pass_unwrapped_witness :
  ERun ["potrace"; "/tmp/tmpa1b2c3.bmp"; "-s"; "-o"; "/tmp/tmpa1b2c3.svg"]
    (Raise (OSError "[Errno 13] Permission denied: 'potrace'"))
    ∈ trace vanished_potrace_run.2 ∧
  vanished_potrace_run.1
    = Raise (OSError "[Errno 13] Permission denied: 'potrace'").
Proof.
  assert (run_upscale vanished_potrace_env 0 None None None None ∅
            {[0%nat := rgb_image]}
          = (vanished_potrace_run.1, vanished_potrace_run.2)) as Hrun
    by (vm_compute; reflexivity).
  assert (ERun ["potrace"; "/tmp/tmpa1b2c3.bmp"; "-s"; "-o"; "/tmp/tmpa1b2c3.svg"]
            (Raise (OSError "[Errno 13] Permission denied: 'potrace'"))
            ∈ trace vanished_potrace_run.2) as Hev
    by (vm_compute; in_list).
  split; [exact Hev|].
  exact (launch_and_tempfile_errors_pass_unwrapped _ _ _ _ _ _ _ _ _ _ _
           Hrun
           (or_intror (ex_intro (fun command => ERun command _ ∈ _) _ Hev))).
Defined.

Lemma normalized_rgba_is_well_formed_rgb_witness :
  heap rgba_world !! 0%nat = Some rgba_image ∧
  wf_rgba rgba_image ∧
  (alpha_normalize sample_env 0 rgba_world).1 = Return 3%nat ∧
  ∃ img1, heap (alpha_normalize sample_env 0 rgba_world).2 !! 3%nat = Some img1 ∧
    mode img1 = "RGB" ∧ size img1 = size rgba_image ∧ loaded img1 = true ∧
    length (pixels img1)
      = (3 * Z.to_nat ((size rgba_image).1 * (size rgba_image).2))%nat ∧
    Forall channel (pixels img1).
Proof.
  assert (heap rgba_world !! 0%nat = Some rgba_image) as Hl
    by (vm_compute; reflexivity).
  assert (wf_rgba rgba_image) as Hwf.
  { repeat split; simpl; try lia.
    repeat (constructor; [unfold channel; lia|]). constructor. }
  assert (alpha_normalize sample_env 0 rgba_world
          = (Return 3%nat, (alpha_normalize sample_env 0 rgba_world).2)) as Hrun
    by (vm_compute; reflexivity).
  repeat (split; [assumption|]).
  split; [vm_compute; reflexivity|].
  exact (normalized_rgba_is_well_formed_rgb sample_env 0 rgba_image rgba_world
           3 _ Hl eq_refl Hwf Hrun).
Defined.

Lemma opaque_pixels_keep_colour_transparent_turn_white_witness :
  heap opaque_world !! 0%nat = Some opaque_image ∧
  wf_rgba opaque_image ∧
  Forall (λ a, a = 255%Z) (alphas (pixels opaque_image)) ∧
  ∃ img1, heap (alpha_normalize sample_env 0 opaque_world).2 !! 3%nat = Some img1 ∧
    pixels img1 = [10; 20; 30]%Z.
Proof.
  assert (heap opaque_world !! 0%nat = Some opaque_image) as Hl
    by (vm_compute; reflexivity).
  assert (wf_rgba opaque_image) as Hwf.
  { repeat split; simpl; try lia.
    repeat (constructor; [unfold channel; lia|]). constructor. }
  assert (Forall (λ a, a = 255%Z) (alphas (pixels opaque_image))) as Hop
    by (repeat constructor).
  assert (alpha_normalize sample_env 0 opaque_world
          = (Return 3%nat, (alpha_normalize sample_env 0 opaque_world).2)) as Hrun
    by (vm_compute; reflexivity).
  repeat (split; [assumption|]).
  destruct (opaque_pixels_keep_colour_transparent_turn_white sample_env 0
              opaque_image opaque_world 3 _ Hl eq_refl Hwf Hrun)
    as (img1 & Himg1 & Hkeep & _).
  exists img1. split; [exact Himg1|]. exact (Hkeep Hop).
Defined.

Lemma alpha_normalize_succeeds_on_rgba_witness :
  heap clear_world !! 0%nat = Some clear_image ∧
  wf_rgba clear_image ∧
  ∃ l1 w', alpha_normalize sample_env 0 clear_world = (Return l1, w') ∧
    l1 ≠ 0%nat.
Proof.
  assert (heap clear_world !! 0%nat = Some clear_image) as Hl
    by (vm_compute; reflexivity).
  assert (wf_rgba clear_image) as Hwf.
  { repeat split; simpl; try lia.
    repeat (constructor; [unfold channel; lia|]). constructor. }
  repeat (split; [assumption|]).
  exact (alpha_normalize_succeeds_on_rgba sample_env 0 clear_image clear_world
           Hl eq_refl Hwf (or_introl eq_refl)).
Defined.

Lemma scaling_node_sends_the_scale_alone_witness :
  requests (trace scaling_node_run.2) = [(2.0%float, None, None)] ∧
  (∀ req, req ∈ requests (trace scaling_node_run.2) →
     req = (2.0%float, None, None) ∧ one_sizing_mode req) ∧
  (∀ command, command ∈ commands (trace scaling_node_run.2) →
     ∃ bmp svg, command = ["potrace"; bmp; "-s"; "-o"; svg]).
Proof.
  assert (vectorized_upscale sample_env 0 2.0%float
            (initial_world ∅ {[0%nat := rgb_image]})
          = (scaling_node_run.1, scaling_node_run.2)) as Hrun
    by (vm_compute; reflexivity).
  split; [vm_compute; reflexivity|].
  exact (scaling_node_sends_the_scale_alone _ _ _ _ _ _ _ Hrun).
Defined.

Lemma size_node_sends_the_size_with_unit_scale_witness :
  requests (trace size_node_run.2) = [(1.0%float, Some 512%Z, Some 512%Z)] ∧
  (∀ req, req ∈ requests (trace size_node_run.2) →
     req = (1.0%float, Some 512%Z, Some 512%Z)) ∧
  (∀ command, command ∈ commands (trace size_node_run.2) →
     ∃ bmp svg, command = ["potrace"; bmp; "-s"; "-o"; svg]).
Proof.
  assert (vectorized_upscale_size sample_env 0 512 512
            (initial_world ∅ {[0%nat := rgb_image]})
          = (size_node_run.1, size_node_run.2)) as Hrun
    by (vm_compute; reflexivity).
  split; [vm_compute; reflexivity|].
  exact (size_node_sends_the_size_with_unit_scale _ _ _ _ _ _ _ _ Hrun).
Defined.

Lemma failed_launch_starts_nothing_witness :
  run None (Some popen_failure) sample_script 0 1 [Main] (pinit None)
    = Some sample_failed_launch ∧
  (pc None sample_failed_launch = AtPopen ∨
   pc None sample_failed_launch = Raised popen_failure) ∧
  child None sample_failed_launch = NotSpawned ∧
  ∀ b, reader None sample_failed_launch b = NotStarted ∧
       printed None sample_failed_launch b = [].
Proof.
  assert (run None (Some popen_failure) sample_script 0 1 [Main] (pinit None)
          = Some sample_failed_launch) as Hrun by (vm_compute; reflexivity).
  split; [exact Hrun|].
  exact (failed_launch_starts_nothing (Some popen_failure) sample_script 0 1
           None popen_failure [Main] sample_failed_launch eq_refl Hrun).
Defined.


Lemma default_handler_runs_are_bounded_witness :
  run None None sample_script 0 1 sample_schedule (pinit None)
    = Some sample_final ∧
  (length sample_schedule + weight sample_script sample_final
     ≤ 2 * length sample_script + 25)%nat.
Proof.
  assert (run None None sample_script 0 1 sample_schedule (pinit None)
          = Some sample_final) as Hrun by (vm_compute; reflexivity).
  split; [exact Hrun|].
  exact (default_handler_runs_are_bounded None sample_script 0 1
           sample_schedule sample_final Hrun).
Defined.


Lemma initialization_installs_what_is_missing_witness :
  (initialization sample_host []).1 = Return tt ∧
  ∃ evs, (initialization sample_host []).2 = [] ++ evs ∧
    launched evs
      = map (fun req => pip_install (executable sample_host) ++ [req]) (missing evs) ∧
    ∀ requirements, read_requirements sample_host = Return requirements →
      tried evs `prefix_of` requirements ∧
      (Return tt = Return tt → tried evs = requirements).
Proof.
  assert (initialization sample_host []
          = (Return tt, (initialization sample_host []).2)) as Hrun
    by (vm_compute; reflexivity).
  split; [vm_compute; reflexivity|].
  exact (initialization_installs_what_is_missing sample_host [] _ _ Hrun).
Defined.

Lemma failed_install_does_not_stop_the_rest_witness :
  read_requirements sample_host = Return ["numpy"; "cairosvg"; "PIL"] ∧
  ∃ evs,
    install_main sample_host []
      = (Return tt, [] ++ evs ++ [IPrint "Installation completed."]) ∧
    tried evs = ["numpy"; "cairosvg"; "PIL"].
Proof.
  assert (read_requirements sample_host = Return ["numpy"; "cairosvg"; "PIL"])
    as Hreq by reflexivity.
  assert (∀ t0 name e, import_module sample_host t0 name ≠ ImportRaised e)
    as Himp.
  { intros t0 name e. simpl. by destruct (String.eqb name "numpy"). }
  assert (∀ t0 cmd_str e, wrap sample_host t0 cmd_str ≠ Raise e) as Hwrap.
  { intros t0 cmd_str e. simpl.
    by destruct (String.eqb (List.last cmd_str "") "cairosvg"). }
  split; [exact Hreq|].
  exact (failed_install_does_not_stop_the_rest sample_host _ [] Hreq Himp Hwrap).
Defined.

Lemma initialization_fails_only_where_it_stopped_witness :
  (initialization no_pip_host []).1
    = Raise (OSError "[Errno 12] Cannot allocate memory") ∧
  (read_requirements no_pip_host
     = Raise (OSError "[Errno 12] Cannot allocate memory") ∧
   (initialization no_pip_host []).2 = [] ∨
   ∃ t0 ev, (initialization no_pip_host []).2 = t0 ++ [ev] ∧
     ((∃ name, ev = IImport name
                      (ImportRaised (OSError "[Errno 12] Cannot allocate memory"))) ∨
      (∃ cmd_str, ev = IWrap cmd_str
                         (Raise (OSError "[Errno 12] Cannot allocate memory"))))).
Proof.
  assert (initialization no_pip_host []
          = (Raise (OSError "[Errno 12] Cannot allocate memory"),
             (initialization no_pip_host []).2)) as Hrun
    by (vm_compute; reflexivity).
  split; [vm_compute; reflexivity|].
  exact (initialization_fails_only_where_it_stopped no_pip_host [] _ _ Hrun).
Defined.
